(** * down.py: the download / decrypt / merge pipeline

    A shallow embedding of [src/down.py].  The script is a straight line of
    subprocess invocations, file-existence tests and [sys.exit] calls, so it
    is embedded as a program in a state-and-exception monad over an explicit
    picture of what lies outside the script: the search path, the files on
    disk and the behaviour of the external tools.

    What is embedded is the program of lines 1 to 151, [main] and what it
    calls.  The file has one more line, 152, the stray shell command
    [git push origin main]; it is not part of any definition below. *)

From Stdlib Require Import String Ascii List ZArith Bool Lia.
Import ListNotations.
Open Scope string_scope.

Module Down.

(** ** Strings and paths *)

Definition Path := string.

(** [sep.join(parts)] *)
Fixpoint join (sep : string) (parts : list string) : string :=
  match parts with
  | [] => ""
  | [x] => x
  | x :: rest => x ++ sep ++ join sep rest
  end.

Definition is_slash (c : ascii) : bool := Ascii.eqb c "/"%char.

Fixpoint contains_slash (s : string) : bool :=
  match s with
  | EmptyString => false
  | String c r => is_slash c || contains_slash r
  end.

Fixpoint last_char (s : string) : option ascii :=
  match s with
  | EmptyString => None
  | String c EmptyString => Some c
  | String _ r => last_char r
  end.

(** [s.startswith(pre)], returning what follows the prefix. *)
Fixpoint strip_prefix (pre s : string) : option string :=
  match pre, s with
  | EmptyString, _ => Some s
  | String a pre', String b s' =>
      if Ascii.eqb a b then strip_prefix pre' s' else None
  | String _ _, EmptyString => None
  end.

Fixpoint string_rev_onto (s acc : string) : string :=
  match s with
  | EmptyString => acc
  | String c r => string_rev_onto r (String c acc)
  end.

Definition string_rev (s : string) : string := string_rev_onto s "".

(** [s.endswith(suf)] *)
Definition ends_with (suf s : string) : bool :=
  match strip_prefix (string_rev suf) (string_rev s) with
  | Some _ => true
  | None => false
  end.

(** [Path(d) / name] for a directory path that does not end in a slash. *)
Definition path_div (d : Path) (name : string) : Path := d ++ "/" ++ name.

(** [os.path.join(d, name)] for a relative [name]. *)
Definition os_path_join (d : Path) (name : string) : Path :=
  match last_char d with
  | None => name
  | Some c => if is_slash c then d ++ name else d ++ "/" ++ name
  end.

(** [Path(p).name]: the final component. *)
Fixpoint path_name (p : Path) : string :=
  match p with
  | EmptyString => EmptyString
  | String c r =>
      if contains_slash r then path_name r
      else if is_slash c then r else p
  end.

(** ** CONFIG *)

Definition MPD : string :=
  "https://media-cdn.classplusapp.com/drm/wv/65af90731ffd3734c4a70d00/e80761cf731ebf4e82c29de281fc5bd1/e80761cf731ebf4e82c29de281fc5bd1.mpd?key=162856104&hdnts=URLPrefix=aHR0cHM6Ly9tZWRpYS1jZG4uY2xhc3NwbHVzYXBwLmNvbS9kcm0vd3YvNjVhZjkwNzMxZmZkMzczNGM0YTcwZDAwL2U4MDc2MWNmNzMxZWJmNGU4MmMyOWRlMjgxZmM1YmQx~Expires=1758283526~hmac=f31053c294bd6db8695671d174a06a6961085e774b0a09ff7d3553d8a3d31d87".

Definition KEYS : list string :=
  [ "833cac330e3f5243bb92b6b1a1f0b830:33eb631c7784af4a6cc9267ed8cbffb0";
    "af975c9bf15c521e8ca7946fa5d846eb:b5c26089aca357bfcbff3d6b4a0480a9";
    "4b4c8d2ef8885b7db7e8cbaa35157229:f860fe5061896ee121bf09b8050fea67";
    "6f5bc63cfb4c527983544e2be87c3ee3:b626a566974683745075058387989f9b";
    "829e92634faa53d3825d17710a11d8e7:68287246dd16c51cc36232d577f4108a" ].

Definition OUTPUT : Path := "final_output.mp4".

(** ** The file system

    The entries on disk, regular files and directories, in the order in
    which a directory scan enumerates them (the order decides which
    fallback candidate comes first).  Existence tests and globs see both
    kinds of entry; only a regular file can be read.  The one path the
    script itself writes, [final_output.mp4], is taken not to name a
    directory. *)

Inductive node : Type :=
| File (content : string)
| Dir.

Record FS : Type := mkFS {
  entries : list (Path * node)
}.

Definition is_dir_node (n : node) : bool :=
  match n with File _ => false | Dir => true end.

(** The contents of the regular file at [p]. *)
Fixpoint lookup (p : Path) (l : list (Path * node)) : option string :=
  match l with
  | [] => None
  | (q, File c) :: rest => if String.eqb p q then Some c else lookup p rest
  | (_, Dir) :: rest => lookup p rest
  end.

(** Creating or overwriting the regular file at [p]. *)
Fixpoint write (p : Path) (c : string) (l : list (Path * node))
  : list (Path * node) :=
  match l with
  | [] => [(p, File c)]
  | (q, File d) :: rest =>
      if String.eqb p q then (q, File c) :: rest
      else (q, File d) :: write p c rest
  | (q, Dir) :: rest => (q, Dir) :: write p c rest
  end.

Definition read_file (fs : FS) (p : Path) : option string :=
  lookup p (entries fs).

(** [Path(p).exists()] *)
Definition path_exists (fs : FS) (p : Path) : bool :=
  existsb (fun e => String.eqb p (fst e)) (entries fs).

(** [Path(p).is_file()] *)
Definition is_file (fs : FS) (p : Path) : bool :=
  match read_file fs p with
  | Some _ => true
  | None => false
  end.

(** [Path(d).is_dir()] *)
Definition is_dir (fs : FS) (d : Path) : bool :=
  existsb (fun e => String.eqb d (fst e) && is_dir_node (snd e)) (entries fs).

Definition write_file (fs : FS) (p : Path) (c : string) : FS :=
  mkFS (write p c (entries fs)).

Definition make_dir (fs : FS) (d : Path) : FS :=
  mkFS ((d, Dir) :: entries fs).

(** The name of [p] inside directory [d], when [p] is an entry of [d]
    itself (not of a subdirectory). *)
Definition entry_name (d p : Path) : option string :=
  match strip_prefix (d ++ "/") p with
  | Some n =>
      match n with
      | EmptyString => None
      | _ => if contains_slash n then None else Some n
      end
  | None => None
  end.

(** [d.glob("*" + suffix)]: the entries of [d], files and directories
    alike, whose name ends in [suffix], in scan order. *)
Definition glob_suffix (fs : FS) (d : Path) (suffix : string) : list Path :=
  filter
    (fun p =>
       match entry_name d p with
       | Some n => ends_with suffix n
       | None => false
       end)
    (map fst (entries fs)).

(** ** The world outside the script *)

(** What a [subprocess.run(cmd)] call comes back with: the child ran to
    completion with a return code, leaving the disk as it likes, or the
    call itself raised (the executable could not be started). *)
Inductive Outcome : Type :=
| Completed (returncode : Z) (after : FS)
| LaunchFailed.

Record World : Type := mkWorld {
  (** the directories of [PATH], in order *)
  search_path : list Path;
  (** [os.access(p, X_OK)] on a regular file *)
  is_executable : Path -> bool;
  (** [tempfile.gettempdir()] and the random part of a [mkdtemp] name *)
  gettempdir : Path;
  random_name : string;
  (** the [n]-th child process of the run, started with [argv] on disk [fs] *)
  spawn : nat -> list string -> FS -> Outcome
}.

(** [shutil.which(cmd)] for a bare command name. *)
Fixpoint which_in (is_exe : Path -> bool) (ds : list Path) (cmd : string)
  : option Path :=
  match ds with
  | [] => None
  | d :: rest =>
      let name := os_path_join d cmd in
      if is_exe name then Some name else which_in is_exe rest cmd
  end.

Definition which (w : World) (cmd : string) : option Path :=
  which_in (is_executable w) (search_path w) cmd.

(** ** Exceptions, output and the interpreter state *)

Inductive exn : Type :=
| SystemExit (code : Z)
| CalledProcessError (returncode : Z) (cmd : list string)
| OSError.

(** A printed line.  The three lines whose text comes from Python's [str]
    or [repr] of a run-time object carry the object instead. *)
Inductive line : Type :=
| Text (s : string)
| CandidatesFound (merged_candidates : list Path)
| CommandFailed (returncode : Z) (cmd : list string)
| Unexpected (e : exn).

(** One [subprocess.run] call as it happened. *)
Record Call : Type := mkCall {
  call_argv : list string;
  call_before : FS;
  call_result : Outcome
}.

Definition call_after (c : Call) : FS :=
  match call_result c with
  | Completed _ after => after
  | LaunchFailed => call_before c
  end.

Record State : Type := mkState {
  disk : FS;
  stdout : list line;
  stderr : list line;
  calls : list Call
}.

Definition M (A : Type) : Type := State -> State * (exn + A).

Definition ret {A} (a : A) : M A := fun s => (s, inr a).

Definition bind {A B} (m : M A) (f : A -> M B) : M B :=
  fun s =>
    match m s with
    | (s', inr a) => f a s'
    | (s', inl e) => (s', inl e)
    end.

Definition raise {A} (e : exn) : M A := fun s => (s, inl e).

(** [try: body  except ...: handler]; a handler of [None] lets the
    exception through. *)
Definition try_except {A} (body : M A) (handler : exn -> option (M A)) : M A :=
  fun s =>
    match body s with
    | (s', inr a) => (s', inr a)
    | (s', inl e) =>
        match handler e with
        | Some h => h s'
        | None => (s', inl e)
        end
    end.

Notation "x <- m ;; k" := (bind m (fun x => k))
  (at level 61, m at next level, right associativity).
Notation "m ;; k" := (bind m (fun _ => k))
  (at level 61, right associativity).

(** [print(...)] and [print(..., file=sys.stderr)], on streams that can
    encode every character of the line (UTF-8 streams): the write itself
    does not raise. *)
Definition print (l : line) : M unit :=
  fun s => (mkState (disk s) (stdout s ++ [l]) (stderr s) (calls s), inr tt).

Definition eprint (l : line) : M unit :=
  fun s => (mkState (disk s) (stdout s) (stderr s ++ [l]) (calls s), inr tt).

Definition sys_exit {A} (code : Z) : M A := raise (SystemExit code).

Definition get_disk : M FS := fun s => (s, inr (disk s)).

Definition nl : string := String (ascii_of_nat 10) "".

Definition tool_missing_message (cmd : string) : line :=
  Text ("[ERROR] Required tool '" ++ cmd ++
        "' not found in PATH. Install it and re-run.").

Section Script.

Variable w : World.

(** [subprocess.run(cmd, check=True)] *)
Definition subprocess_run_check (cmd : list string) : M unit :=
  fun s =>
    let r := spawn w (length (calls s)) cmd (disk s) in
    let c := mkCall cmd (disk s) r in
    match r with
    | Completed returncode after =>
        let s' := mkState after (stdout s) (stderr s) (calls s ++ [c]) in
        if Z.eqb returncode 0 then (s', inr tt)
        else (s', inl (CalledProcessError returncode cmd))
    | LaunchFailed =>
        (mkState (disk s) (stdout s) (stderr s) (calls s ++ [c]), inl OSError)
    end.

(** [tempfile.mkdtemp(prefix=...)] *)
Definition mkdtemp (prefix : string) : M Path :=
  fun s =>
    let d := os_path_join (gettempdir w) (prefix ++ random_name w) in
    (mkState (make_dir (disk s) d) (stdout s) (stderr s) (calls s), inr d).

(** [shutil.copy2(src, dst)] *)
Definition copy2 (src dst : Path) : M unit :=
  fun s =>
    match read_file (disk s) src with
    | Some c =>
        (mkState (write_file (disk s) dst c) (stdout s) (stderr s) (calls s),
         inr tt)
    | None => (s, inl OSError)
    end.

(** *** Helpers *)

Definition which_or_exit (cmd : string) : M Path :=
  match which w cmd with
  | None =>
      eprint (tool_missing_message cmd) ;;
      sys_exit 1
  | Some path => ret path
  end.

Definition run (cmd : list string) : M unit :=
  print (Text (">>> " ++ join " " cmd)) ;;
  subprocess_run_check cmd.

(** *** Main flow *)

(** The local names of [main]. *)
Record Locals : Type := mkLocals {
  yt_dlp : Path;
  mp4decrypt : Path;
  ffmpeg : Path;
  tmp : Path
}.

Definition video_enc (l : Locals) : Path := path_div (tmp l) "video.encrypted.mp4".
Definition audio_enc (l : Locals) : Path := path_div (tmp l) "audio.encrypted.m4a".
Definition video_dec (l : Locals) : Path := path_div (tmp l) "video.decrypted.mp4".
Definition audio_dec (l : Locals) : Path := path_div (tmp l) "audio.decrypted.m4a".

(** Check tools, create temp dir. *)
Definition setup : M Locals :=
  yt <- which_or_exit "yt-dlp" ;;
  mp <- which_or_exit "mp4decrypt" ;;
  ff <- which_or_exit "ffmpeg" ;;
  t <- mkdtemp "mpd_dl_" ;;
  print (Text ("[INFO] Using temp dir: " ++ t)) ;;
  ret (mkLocals yt mp ff t).

Definition list_cmd (l : Locals) : list string := [yt_dlp l; "-F"; MPD].

Definition video_cmd (l : Locals) : list string :=
  [yt_dlp l; "-f"; "bestvideo"; "-o"; video_enc l; MPD].

Definition audio_cmd (l : Locals) : list string :=
  [yt_dlp l; "-f"; "bestaudio"; "-o"; audio_enc l; MPD].

(** 1) List formats (optional info) *)
Definition list_formats (l : Locals) : M unit :=
  print (Text (nl ++ "[STEP] Listing available formats (yt-dlp -F) ...")) ;;
  try_except (run (list_cmd l))
    (fun e => match e with
              | CalledProcessError _ _ => Some (ret tt)
              | _ => None
              end).

(** 2) Download bestvideo *)
Definition download_video (l : Locals) : M unit :=
  print (Text (nl ++ "[STEP] Downloading best video (encrypted) ...")) ;;
  run (video_cmd l).

(** 3) Download bestaudio *)
Definition download_audio (l : Locals) : M unit :=
  print (Text (nl ++ "[STEP] Downloading best audio (encrypted) ...")) ;;
  run (audio_cmd l).

(** Validate files exist *)
Definition validate_files (l : Locals) : M unit :=
  fs <- get_disk ;;
  (if negb (path_exists fs (video_enc l)) then
     eprint (Text ("[ERROR] Encrypted video not found at " ++ video_enc l)) ;;
     sys_exit 1
   else ret tt) ;;
  fs <- get_disk ;;
  if negb (path_exists fs (audio_enc l)) then
    print (Text ("[WARNING] Encrypted audio not found at " ++ audio_enc l ++
                 " — trying to continue (maybe audio is muxed)."))
  else ret tt.

(** [key_args = []; for k in KEYS: key_args += ["--key", k]] *)
Definition key_args : list string :=
  fold_left (fun acc k => (acc ++ ["--key"; k])%list) KEYS [].

Definition decrypt_cmd (l : Locals) (src dst : Path) : list string :=
  [mp4decrypt l] ++ key_args ++ [src; dst].

(** [[p for p in tmp.glob("*.mp4") if p.name != video_dec.name]] *)
Definition merged_candidates (l : Locals) (fs : FS) : list Path :=
  filter (fun p => negb (String.eqb (path_name p) (path_name (video_dec l))))
         (glob_suffix fs (tmp l) ".mp4").

Definition no_candidate_message : line :=
  Text "[ERROR] No audio encrypted file found and no merged encrypted mp4 candidate. Exiting.".

(** 4) Decrypt using mp4decrypt: the video track. *)
Definition decrypt_video (l : Locals) : M unit :=
  print (Text (nl ++ "[STEP] Decrypting tracks with mp4decrypt ...")) ;;
  fs <- get_disk ;;
  if path_exists fs (video_enc l) then
    run (decrypt_cmd l (video_enc l) (video_dec l))
  else ret tt.

(** 4) continued: the audio track, or the merged-file fallback. *)
Definition decrypt_audio (l : Locals) : M unit :=
  fs <- get_disk ;;
  if path_exists fs (audio_enc l) then
    run (decrypt_cmd l (audio_enc l) (audio_dec l))
  else
    match merged_candidates l fs with
    | first :: rest =>
        print (CandidatesFound (first :: rest)) ;;
        run (decrypt_cmd l first (video_dec l))
    | [] =>
        eprint no_candidate_message ;;
        sys_exit 1
    end.

Definition merge_cmd (l : Locals) : list string :=
  [ffmpeg l; "-y"; "-i"; video_dec l; "-i"; audio_dec l; "-c"; "copy"; OUTPUT].

(** 5) Merge decrypted audio+video into final_output.mp4 *)
Definition merge_tracks (l : Locals) : M unit :=
  print (Text (nl ++ "[STEP] Merging decrypted tracks into " ++ OUTPUT)) ;;
  fs <- get_disk ;;
  if path_exists fs (video_dec l) && path_exists fs (audio_dec l) then
    run (merge_cmd l)
  else if path_exists fs (video_dec l) && negb (path_exists fs (audio_dec l)) then
    print (Text "[INFO] audio decrypted absent — copying decrypted video to final output.") ;;
    copy2 (video_dec l) OUTPUT
  else
    eprint (Text "[ERROR] Decrypted video not found. Cannot create final output.") ;;
    sys_exit 1.

Definition report_success (l : Locals) : M unit :=
  print (Text (nl ++ "[SUCCESS] Final file created: " ++ OUTPUT)) ;;
  print (Text ("[CLEANUP] Temporary dir (kept): " ++ tmp l)) ;;
  print (Text "If you want to remove temp files, delete the folder above.").

(** The two [except] clauses that close [main]'s [try]. *)
Definition main_handlers (e : exn) : option (M unit) :=
  match e with
  | CalledProcessError returncode cmd =>
      Some (eprint (CommandFailed returncode cmd) ;;
            print (Text "Check logs above for the failing command.") ;;
            sys_exit 1)
  | OSError =>
      Some (eprint (Unexpected e) ;; sys_exit 1)
  | SystemExit _ => None
  end.

(** The part of the [try] body up to and including the video decrypt. *)
Definition through_video_decrypt (l : Locals) : M unit :=
  list_formats l ;;
  download_video l ;;
  download_audio l ;;
  validate_files l ;;
  decrypt_video l.

(** The [try] body up to the merge step. *)
Definition through_decrypt (l : Locals) : M unit :=
  through_video_decrypt l ;;
  decrypt_audio l.

(** The [try] statement of [main]. *)
Definition try_block (l : Locals) : M unit :=
  try_except
    (through_decrypt l ;;
     merge_tracks l ;;
     report_success l)
    main_handlers.

Definition main : M unit :=
  l <- setup ;;
  try_block l.

End Script.

(** ** The process *)

Definition initial (fs : FS) : State := mkState fs [] [] [].

(** The exit status the interpreter hands back for what [main()] did. *)
Definition exit_status (r : exn + unit) : Z :=
  match r with
  | inr _ => 0
  | inl (SystemExit code) => code
  | inl _ => 1
  end.

Definition run_main (w : World) (fs : FS) : State * (exn + unit) :=
  main w (initial fs).

Definition final (w : World) (fs : FS) : State := fst (run_main w fs).

Definition exit_code (w : World) (fs : FS) : Z := exit_status (snd (run_main w fs)).

(** ** Vocabulary for the properties *)

(** What [setup] binds when all three tools are found. *)
Definition resolve (w : World) : option Locals :=
  match which w "yt-dlp", which w "mp4decrypt", which w "ffmpeg" with
  | Some yt, Some mp, Some ff =>
      Some (mkLocals yt mp ff
              (os_path_join (gettempdir w) ("mpd_dl_" ++ random_name w)))
  | _, _, _ => None
  end.

(** The executable a call started. *)
Definition program (c : Call) : option Path := hd_error (call_argv c).

Definition returned_nonzero (c : Call) : bool :=
  match call_result c with
  | Completed returncode _ => negb (Z.eqb returncode 0)
  | LaunchFailed => false
  end.

(** Every entry of [before] is still there in [after], a directory still
    as a directory. *)
Definition keeps (before after : FS) : bool :=
  forallb
    (fun e =>
       match snd e with
       | File _ => path_exists after (fst e)
       | Dir => is_dir after (fst e)
       end)
    (entries before).

(** The file a command line is meant to produce: what follows [-o] for a
    yt-dlp download, nothing for the [-F] listing, the last argument for
    mp4decrypt and ffmpeg. *)
Definition expected_output (argv : list string) : option Path :=
  match nth_error argv 1 with
  | Some flag =>
      if String.eqb flag "-F" then None
      else if String.eqb flag "-f" then nth_error argv 4
      else Some (last argv "")
  | None => None
  end.

(** The child exited 0 and the file its command line names is there, a
    regular file. *)
Definition succeeds_with_output (c : Call) : bool :=
  match call_result c with
  | Completed returncode after =>
      Z.eqb returncode 0 &&
      match expected_output (call_argv c) with
      | Some out => is_file after out
      | None => true
      end
  | LaunchFailed => false
  end.

(** The child left [p] in place if it was there. *)
Definition leaves_in_place (p : Path) (c : Call) : bool :=
  implb (path_exists (call_before c) p) (path_exists (call_after c) p).

(** No call removed the file that the call just before it was meant to
    produce. *)
Fixpoint spares_previous_output (cs : list Call) : bool :=
  match cs with
  | [] => true
  | c :: rest =>
      match rest, expected_output (call_argv c) with
      | next :: _, Some out => leaves_in_place out next
      | _, _ => true
      end && spares_previous_output rest
  end.

(** The world [w] with the first child process of the run, the format
    listing, returning [returncode] instead of what it returns in [w];
    what it does to the disk, and every later child, are as in [w]. *)
Definition listing_returns (returncode : Z) (w : World) : World :=
  mkWorld (search_path w) (is_executable w) (gettempdir w) (random_name w)
    (fun n argv fs =>
       match n, spawn w n argv fs with
       | 0, Completed _ after => Completed returncode after
       | _, r => r
       end).

(** The run of [main] up to the point where the decrypt step turns to the
    audio track. *)
Definition to_audio_decrypt (w : World) : M Locals :=
  l <- setup w ;;
  through_video_decrypt w l ;;
  ret l.

(** The run of [main] up to the merge step. *)
Definition to_merge (w : World) : M Locals :=
  l <- setup w ;;
  through_decrypt w l ;;
  ret l.


(** Between the moments at which the script hands the disk to a child and
    gets it back, nothing has gone: the disk each call starts on keeps what
    the previous call left (or what was there at the start), and the disk
    at exit keeps what the last call left. *)
Fixpoint script_keeps (start : FS) (cs : list Call) (finish : FS) : bool :=
  match cs with
  | [] => keeps start finish
  | c :: rest =>
      keeps start (call_before c) && script_keeps (call_after c) rest finish
  end.

(** The child removed nothing. *)
Definition removes_nothing (c : Call) : bool :=
  keeps (call_before c) (call_after c).

(** ** Some concrete worlds *)

Module Scenario.

Definition usr_bin (p : Path) : bool :=
  existsb (String.eqb p)
    ["/usr/bin/yt-dlp"; "/usr/bin/mp4decrypt"; "/usr/bin/ffmpeg"].

(** A machine on which [ffmpeg] is not installed. *)
Definition no_ffmpeg (p : Path) : bool :=
  existsb (String.eqb p) ["/usr/bin/yt-dlp"; "/usr/bin/mp4decrypt"].

Definition empty_disk : FS := mkFS [("/tmp", Dir)].

(** A tool that writes the file its command line names and exits 0. *)
Definition produce (argv : list string) (fs : FS) : FS :=
  match expected_output argv with
  | Some out => write_file fs out ("output of " ++ join " " (firstn 2 argv))
  | None => fs
  end.

Definition remove_file (fs : FS) (p : Path) : FS :=
  mkFS (filter (fun e => negb (String.eqb (fst e) p)) (entries fs)).

(** An mp4decrypt that decrypts by moving: the input is gone afterwards. *)
Definition consume (argv : list string) (fs : FS) : FS :=
  produce argv (remove_file fs (nth (length argv - 2) argv "")).

Definition machine (is_exe : Path -> bool)
    (tools : nat -> list string -> FS -> Outcome) : World :=
  mkWorld ["/usr/local/bin"; "/usr/bin"] is_exe "/tmp" "k3x9_q2a" tools.

(** Every tool does its job. *)
Definition all_fine : World :=
  machine usr_bin (fun _ argv fs => Completed 0 (produce argv fs)).

Definition ffmpeg_missing : World :=
  machine no_ffmpeg (fun _ argv fs => Completed 0 (produce argv fs)).

(** The format listing exits 1; everything else does its job. *)
Definition listing_fails : World :=
  machine usr_bin
    (fun n argv fs =>
       match n with
       | 0 => Completed 1 fs
       | _ => Completed 0 (produce argv fs)
       end).

(** The video download exits 1. *)
Definition video_fails : World :=
  machine usr_bin
    (fun n argv fs =>
       match n with
       | 1 => Completed 1 fs
       | _ => Completed 0 (produce argv fs)
       end).

(** The audio download exits 0 but leaves no file (the stream has no
    separate audio track); everything else does its job. *)
Definition no_audio : World :=
  machine usr_bin
    (fun n argv fs =>
       match n with
       | 2 => Completed 0 fs
       | _ => Completed 0 (produce argv fs)
       end).

(** As [no_audio], with an mp4decrypt that moves its input. *)
Definition moving_decrypt : World :=
  machine usr_bin
    (fun n argv fs =>
       match n with
       | 2 => Completed 0 fs
       | 3 => Completed 0 (consume argv fs)
       | _ => Completed 0 (produce argv fs)
       end).

Definition locals : Locals :=
  mkLocals "/usr/bin/yt-dlp" "/usr/bin/mp4decrypt" "/usr/bin/ffmpeg"
    "/tmp/mpd_dl_k3x9_q2a".

Definition no_call : Call := mkCall [] empty_disk LaunchFailed.

(** The failed download of the run in [video_fails]. *)
Definition failed_download : Call :=
  nth 1 (calls (final video_fails empty_disk)) no_call.

(** The audio decrypt of the run in [all_fine]. *)
Definition audio_decrypt_call : Call :=
  nth 4 (calls (final all_fine empty_disk)) no_call.


(** The state in which the run in [moving_decrypt] turns to the audio. *)
Definition at_audio_decrypt : State :=
  fst (to_audio_decrypt moving_decrypt (initial empty_disk)).

(** The video decrypt of the run in [moving_decrypt]. *)
Definition moving_video_decrypt : Call :=
  nth 3 (calls (final moving_decrypt empty_disk)) no_call.

(** The listing of the run in [listing_fails]. *)
Definition failed_listing : Call :=
  nth 0 (calls (final listing_fails empty_disk)) no_call.

End Scenario.

(** ** More vocabulary: lines of the transcript, outcomes of a call *)

Definition success_line : line :=
  Text (nl ++ "[SUCCESS] Final file created: " ++ OUTPUT).

Definition check_logs_line : line :=
  Text "Check logs above for the failing command.".

Definition video_missing_message (l : Locals) : line :=
  Text ("[ERROR] Encrypted video not found at " ++ video_enc l).

Definition no_decrypted_video_message : line :=
  Text "[ERROR] Decrypted video not found. Cannot create final output.".

(** The line [run] prints before it starts [argv]. *)
Definition echo (argv : list string) : line :=
  Text (">>> " ++ join " " argv).

Definition is_echo (ln : line) : bool :=
  match ln with
  | Text s =>
      match strip_prefix ">>> " s with
      | Some _ => true
      | None => false
      end
  | _ => false
  end.

Definition returned_zero (c : Call) : bool :=
  match call_result c with
  | Completed returncode _ => Z.eqb returncode 0
  | LaunchFailed => false
  end.

Definition launch_failed (c : Call) : bool :=
  match call_result c with
  | Completed _ _ => false
  | LaunchFailed => true
  end.

(** The loop of lines 104-106 over any list of keys. *)
Definition key_args_for (keys : list string) : list string :=
  fold_left (fun acc k => (acc ++ ["--key"; k])%list) keys [].

(** The six command lines of a full run, [fifth] being the audio decrypt
    or the decrypt of a fallback candidate. *)
Definition pipeline (l : Locals) (fifth : list string) : list (list string) :=
  [ list_cmd l; video_cmd l; audio_cmd l;
    decrypt_cmd l (video_enc l) (video_dec l); fifth; merge_cmd l ].

(** The first of the three tools, in the order in which [main] looks them
    up, that is not found. *)
Definition first_missing (w : World) : option string :=
  match which w "yt-dlp" with
  | None => Some "yt-dlp"
  | Some _ =>
      match which w "mp4decrypt" with
      | None => Some "mp4decrypt"
      | Some _ =>
          match which w "ffmpeg" with
          | None => Some "ffmpeg"
          | Some _ => None
          end
      end
  end.

(** The run of [main] up to the validation of the downloaded files. *)
Definition to_validation (w : World) : M Locals :=
  l <- setup w ;;
  list_formats w l ;;
  download_video w l ;;
  download_audio w l ;;
  ret l.

(** Once the listing has returned, its return code is on record in the
    first call of the run and nowhere else.  Two states agree when they
    differ at most in the result on record for that first call. *)
Definition agree (s s' : State) : Prop :=
  disk s = disk s' /\ stdout s = stdout s' /\ stderr s = stderr s' /\
  exists c c' later,
    calls s = c :: later /\ calls s' = c' :: later /\
    call_argv c = call_argv c'.

Definition in_step {A : Type} (m m' : M A) : Prop :=
  forall s s',
    agree s s' ->
    agree (fst (m s)) (fst (m' s')) /\ snd (m s) = snd (m' s').

(** What follows the listing in the [try] statement of [main]. *)
Definition after_listing (w : World) (l : Locals) : M unit :=
  try_except
    (((download_video w l ;;
       download_audio w l ;;
       validate_files l ;;
       decrypt_video w l) ;;
      decrypt_audio w l) ;;
     merge_tracks w l ;;
     report_success l)
    main_handlers.

(** More concrete worlds. *)
Module Cases.

(** The listing cannot even be started. *)
Definition listing_unstartable : World :=
  Scenario.machine Scenario.usr_bin
    (fun n argv fs =>
       match n with
       | 0 => LaunchFailed
       | _ => Completed 0 (Scenario.produce argv fs)
       end).

(** The audio download exits 2. *)
Definition audio_fails : World :=
  Scenario.machine Scenario.usr_bin
    (fun n argv fs =>
       match n with
       | 2 => Completed 2 fs
       | _ => Completed 0 (Scenario.produce argv fs)
       end).

(** The video download exits 0 and leaves no file. *)
Definition no_video : World :=
  Scenario.machine Scenario.usr_bin
    (fun n argv fs =>
       match n with
       | 1 => Completed 0 fs
       | _ => Completed 0 (Scenario.produce argv fs)
       end).

(** mp4decrypt exits 0 and writes nothing. *)
Definition idle_decrypt : World :=
  Scenario.machine Scenario.usr_bin
    (fun n argv fs =>
       match n with
       | 3 | 4 => Completed 0 fs
       | _ => Completed 0 (Scenario.produce argv fs)
       end).

(** ffmpeg exits 0 and writes nothing. *)
Definition idle_ffmpeg : World :=
  Scenario.machine Scenario.usr_bin
    (fun n argv fs =>
       match n with
       | 5 => Completed 0 fs
       | _ => Completed 0 (Scenario.produce argv fs)
       end).

(** Neither yt-dlp nor ffmpeg is installed. *)
Definition only_mp4decrypt : World :=
  Scenario.machine
    (fun p => String.eqb p "/usr/bin/mp4decrypt")
    (fun _ argv fs => Completed 0 (Scenario.produce argv fs)).

(** The audio download of the run in [audio_fails]. *)
Definition failed_audio_download : Call :=
  nth 2 (calls (final audio_fails Scenario.empty_disk)) Scenario.no_call.

(** The listing of the run in [listing_unstartable]. *)
Definition unstarted_listing : Call :=
  nth 0 (calls (final listing_unstartable Scenario.empty_disk))
    Scenario.no_call.

(** The state in which the run in [idle_ffmpeg] reaches the merge step. *)
Definition before_idle_ffmpeg : State :=
  fst (to_merge idle_ffmpeg (initial Scenario.empty_disk)).

(** The state in which the run in [idle_decrypt] reaches the merge step. *)
Definition after_idle_decrypt : State :=
  fst (to_merge idle_decrypt (initial Scenario.empty_disk)).

(** The state in which the run in [no_video] reaches the validation of
    the downloaded files. *)
Definition downloaded_no_video : State :=
  fst (to_validation no_video (initial Scenario.empty_disk)).

(** The audio download writes its file and clears away the encrypted
    video; every tool exits 0 with its output file written. *)
Definition clearing_audio_download : World :=
  Scenario.machine Scenario.usr_bin
    (fun n argv fs =>
       match n with
       | 2 =>
           Completed 0
             (Scenario.produce argv
                (Scenario.remove_file fs (video_enc Scenario.locals)))
       | _ => Completed 0 (Scenario.produce argv fs)
       end).

(** The state in which the run in [Scenario.no_audio] turns to the audio
    track. *)
Definition no_audio_at_decrypt : State :=
  fst (to_audio_decrypt Scenario.no_audio (initial Scenario.empty_disk)).

End Cases.

(** ** Facts about strings and paths *)

Lemma last_char_app (a b : string) :
  b <> "" -> last_char (a ++ b) = last_char b.
Proof.
  intros Hb. induction a as [|c a IH]; [reflexivity|].
  cbn [String.append last_char]. rewrite IH.
  destruct (a ++ b) eqn:E; [|reflexivity].
  destruct a; [cbn in E; congruence | discriminate].
Qed.

Lemma last_char_os_path_join (d cmd : string) :
  cmd <> "" -> last_char (os_path_join d cmd) = last_char cmd.
Proof.
  intros Hc. unfold os_path_join.
  destruct (last_char d) as [c|]; [|reflexivity].
  destruct (is_slash c).
  - now apply last_char_app.
  - rewrite last_char_app by discriminate. now apply (last_char_app "/").
Qed.

Lemma which_last_char (w : World) (cmd : string) (p : Path) :
  cmd <> "" -> which w cmd = Some p -> last_char p = last_char cmd.
Proof.
  intros Hc. unfold which. induction (search_path w) as [|d ds IH]; cbn.
  - discriminate.
  - destruct (is_executable w (os_path_join d cmd)).
    + intros [= <-]. now apply last_char_os_path_join.
    + exact IH.
Qed.

(** The three tools resolve to three different executables: a resolved
    path ends in the command name it was resolved from. *)
Lemma resolve_distinct (w : World) (l : Locals) :
  resolve w = Some l ->
  yt_dlp l <> mp4decrypt l /\ yt_dlp l <> ffmpeg l /\ mp4decrypt l <> ffmpeg l.
Proof.
  unfold resolve.
  destruct (which w "yt-dlp") as [yt|] eqn:Hy; [|discriminate].
  destruct (which w "mp4decrypt") as [mp|] eqn:Hm; [|discriminate].
  destruct (which w "ffmpeg") as [ff|] eqn:Hf; [|discriminate].
  intros [= <-]. cbn.
  apply which_last_char in Hy, Hm, Hf; try discriminate.
  cbn in Hy, Hm, Hf.
  repeat split; intros ->; congruence.
Qed.

Lemma contains_slash_app (a b : string) :
  contains_slash (a ++ b) = contains_slash a || contains_slash b.
Proof.
  induction a as [|c a IH]; [reflexivity|].
  cbn. now rewrite IH, orb_assoc.
Qed.

Lemma path_name_div (d : Path) (n : string) :
  contains_slash n = false -> path_name (path_div d n) = n.
Proof.
  intros Hn. unfold path_div. induction d as [|c d IH].
  - cbn. now rewrite Hn.
  - cbn [String.append path_name].
    rewrite contains_slash_app. cbn [String.append contains_slash].
    now rewrite orb_true_r.
Qed.

Lemma string_app_assoc (a b c : string) : (a ++ b) ++ c = a ++ b ++ c.
Proof. induction a as [|x a IH]; [reflexivity|]. cbn. now rewrite IH. Qed.

Lemma strip_prefix_app (pre s : string) : strip_prefix pre (pre ++ s) = Some s.
Proof.
  induction pre as [|c pre IH]; [reflexivity|].
  cbn. now rewrite Ascii.eqb_refl.
Qed.

Lemma entry_name_div (d : Path) (n : string) :
  n <> "" -> contains_slash n = false -> entry_name d (path_div d n) = Some n.
Proof.
  intros Hn Hs. unfold entry_name, path_div.
  rewrite <- string_app_assoc, strip_prefix_app, Hs.
  destruct n; [congruence | reflexivity].
Qed.

(** ** Facts about the file system *)



Lemma path_exists_in (fs : FS) (p : Path) :
  path_exists fs p = true <-> In p (map fst (entries fs)).
Proof.
  unfold path_exists. rewrite existsb_exists, in_map_iff. split.
  - intros (e & He & E). apply String.eqb_eq in E. now exists e.
  - intros (e & E & He). exists e. split; [exact He|].
    subst p. apply String.eqb_refl.
Qed.

Lemma is_dir_in (fs : FS) (d : Path) :
  is_dir fs d = true <-> In (d, Dir) (entries fs).
Proof.
  unfold is_dir. rewrite existsb_exists. split.
  - intros ([q [c|]] & He & E); cbn in E.
    + now rewrite andb_false_r in E.
    + rewrite andb_true_r in E. apply String.eqb_eq in E. now subst.
  - intros H. exists (d, Dir). split; [exact H|].
    cbn. now rewrite String.eqb_refl.
Qed.

Lemma is_dir_exists (fs : FS) (d : Path) :
  is_dir fs d = true -> path_exists fs d = true.
Proof.
  rewrite is_dir_in, path_exists_in. intros H.
  apply in_map_iff. now exists (d, Dir).
Qed.

Lemma read_file_path_exists (fs : FS) (p : Path) (c : string) :
  read_file fs p = Some c -> path_exists fs p = true.
Proof.
  unfold read_file, path_exists.
  induction (entries fs) as [|[q [d|]] l IH]; cbn; [discriminate| |].
  - destruct (String.eqb p q); [reflexivity | exact IH].
  - intros H. rewrite (IH H). apply orb_true_r.
Qed.

Lemma is_file_path_exists (fs : FS) (p : Path) :
  is_file fs p = true -> path_exists fs p = true.
Proof.
  unfold is_file. destruct (read_file fs p) as [c|] eqn:E; [|discriminate].
  intros _. exact (read_file_path_exists _ _ _ E).
Qed.

Lemma write_keeps_keys (p : Path) (c : string) (l : list (Path * node)) (q : Path) :
  In q (map fst l) -> In q (map fst (write p c l)).
Proof.
  induction l as [|[r [d|]] l IH]; cbn.
  - intros [].
  - destruct (String.eqb p r); cbn; intros [H|H]; auto.
  - intros [H|H]; auto.
Qed.

Lemma write_keeps_dirs (p : Path) (c : string) (l : list (Path * node)) (d : Path) :
  In (d, Dir) l -> In (d, Dir) (write p c l).
Proof.
  induction l as [|[r [x|]] l IH]; cbn.
  - intros [].
  - destruct (String.eqb p r); cbn; intros [H|H];
      solve [discriminate H | auto].
  - intros [H|H]; auto.
Qed.

Lemma path_exists_write_file (fs : FS) (p q : Path) (c : string) :
  path_exists fs q = true -> path_exists (write_file fs p c) q = true.
Proof.
  rewrite !path_exists_in. apply write_keeps_keys.
Qed.

Lemma keeps_spec (before after : FS) :
  keeps before after = true <->
  (forall p, path_exists before p = true -> path_exists after p = true) /\
  (forall d, is_dir before d = true -> is_dir after d = true).
Proof.
  unfold keeps. rewrite forallb_forall. split.
  - intros H. split.
    + intros p Hp. apply path_exists_in, in_map_iff in Hp.
      destruct Hp as ([q [c|]] & <- & He); specialize (H _ He); cbn in H.
      * exact H.
      * now apply is_dir_exists.
    + intros d Hd. apply is_dir_in in Hd. exact (H _ Hd).
  - intros [Hf Hd] [q [c|]] He; cbn.
    + apply Hf, path_exists_in, in_map_iff. now exists (q, File c).
    + apply Hd, is_dir_in. exact He.
Qed.

Lemma keeps_file (before after : FS) (p : Path) :
  keeps before after = true ->
  path_exists before p = true -> path_exists after p = true.
Proof. intros H. apply keeps_spec in H. apply H. Qed.

Lemma keeps_dir (before after : FS) (d : Path) :
  keeps before after = true -> is_dir before d = true -> is_dir after d = true.
Proof. intros H. apply keeps_spec in H. apply H. Qed.

Lemma keeps_refl (fs : FS) : keeps fs fs = true.
Proof. now apply keeps_spec. Qed.

Lemma keeps_trans (a b c : FS) :
  keeps a b = true -> keeps b c = true -> keeps a c = true.
Proof.
  rewrite !keeps_spec. intros [H1 H2] [H3 H4]. split; auto.
Qed.

Lemma keeps_write_file (fs : FS) (p : Path) (c : string) :
  keeps fs (write_file fs p c) = true.
Proof.
  apply keeps_spec. split.
  - intros q. apply path_exists_write_file.
  - intros d. rewrite !is_dir_in. apply write_keeps_dirs.
Qed.

Lemma is_dir_make_dir (fs : FS) (d : Path) : is_dir (make_dir fs d) d = true.
Proof. apply is_dir_in. now left. Qed.

Lemma keeps_make_dir (fs : FS) (d : Path) : keeps fs (make_dir fs d) = true.
Proof.
  apply keeps_spec. split.
  - intros p. rewrite !path_exists_in. cbn. auto.
  - intros e. rewrite !is_dir_in. cbn. auto.
Qed.

(** What each command line of the pipeline is meant to produce. *)
Lemma expected_output_list (l : Locals) : expected_output (list_cmd l) = None.
Proof. reflexivity. Qed.

Lemma expected_output_video (l : Locals) :
  expected_output (video_cmd l) = Some (video_enc l).
Proof. reflexivity. Qed.

Lemma expected_output_audio (l : Locals) :
  expected_output (audio_cmd l) = Some (audio_enc l).
Proof. reflexivity. Qed.

Lemma expected_output_decrypt (l : Locals) (src dst : Path) :
  expected_output (decrypt_cmd l src dst) = Some dst.
Proof. reflexivity. Qed.

Lemma expected_output_merge (l : Locals) :
  expected_output (merge_cmd l) = Some OUTPUT.
Proof. reflexivity. Qed.

Lemma succeeds_with_output_spec (c : Call) :
  succeeds_with_output c = true ->
  exists after,
    call_result c = Completed 0 after /\
    (forall out, expected_output (call_argv c) = Some out ->
                 is_file after out = true).
Proof.
  unfold succeeds_with_output.
  destruct (call_result c) as [rc after|]; [|discriminate].
  rewrite andb_true_iff. intros [Hrc Hout].
  apply Z.eqb_eq in Hrc. subst rc. exists after. split; trivial.
  intros out E. now rewrite E in Hout.
Qed.

(** ** The fallback candidates *)

Lemma strip_prefix_spec (pre s r : string) :
  strip_prefix pre s = Some r -> s = pre ++ r.
Proof.
  revert s. induction pre as [|a pre IH]; intros s; cbn.
  - now intros [= ->].
  - destruct s as [|b s]; [discriminate|].
    destruct (Ascii.eqb_spec a b) as [->|]; [|discriminate].
    intros H. now rewrite (IH _ H).
Qed.

Lemma entry_name_spec (d p : Path) (n : string) :
  entry_name d p = Some n ->
  p = path_div d n /\ contains_slash n = false /\ n <> "".
Proof.
  unfold entry_name, path_div.
  destruct (strip_prefix (d ++ "/") p) as [r|] eqn:E; [|discriminate].
  apply strip_prefix_spec in E. rewrite string_app_assoc in E.
  destruct r as [|c r]; [discriminate|].
  destruct (contains_slash (String c r)) eqn:Hs; [discriminate|].
  intros [= <-]. repeat split; trivial. discriminate.
Qed.

(** A path is a fallback candidate exactly when it is an entry of the
    temporary directory itself whose name ends in [.mp4] and is not
    [video.decrypted.mp4]. *)
Lemma merged_candidates_spec (l : Locals) (fs : FS) (p : Path) :
  In p (merged_candidates l fs) <->
  path_exists fs p = true /\
  exists n, entry_name (tmp l) p = Some n /\
            ends_with ".mp4" n = true /\
            n <> "video.decrypted.mp4".
Proof.
  unfold merged_candidates, glob_suffix, video_dec.
  rewrite !filter_In, path_exists_in, (path_name_div (tmp l)) by reflexivity.
  split.
  - intros [[Hin Hglob] Hname].
    destruct (entry_name (tmp l) p) as [n|] eqn:E; [|discriminate].
    split; [exact Hin|]. exists n. repeat split; trivial.
    destruct (entry_name_spec _ _ _ E) as (-> & Hs & _).
    rewrite path_name_div in Hname by exact Hs.
    apply negb_true_iff, String.eqb_neq in Hname. exact Hname.
  - intros (Hin & n & E & Hsuf & Hne).
    rewrite E. repeat split; trivial.
    destruct (entry_name_spec _ _ _ E) as (-> & Hs & _).
    rewrite path_name_div by exact Hs.
    now apply negb_true_iff, String.eqb_neq.
Qed.

Lemma video_enc_is_candidate (l : Locals) (fs : FS) :
  path_exists fs (video_enc l) = true ->
  In (video_enc l) (merged_candidates l fs).
Proof.
  intros H. apply merged_candidates_spec. split; [exact H|].
  exists "video.encrypted.mp4". repeat split.
  - unfold video_enc. now apply entry_name_div.
  - discriminate.
Qed.

Lemma string_app_inv_head (a b c : string) : a ++ b = a ++ c -> b = c.
Proof.
  induction a as [|x a IH]; cbn; [trivial|]. intros [= H]. now apply IH.
Qed.

Lemma path_div_inj (d : Path) (a b : string) :
  path_div d a = path_div d b -> a = b.
Proof.
  unfold path_div. intros H. apply string_app_inv_head in H.
  now injection H.
Qed.

Lemma decrypt_cmd_inj (l : Locals) (s d s' d' : Path) :
  decrypt_cmd l s d = decrypt_cmd l s' d' -> s = s' /\ d = d'.
Proof.
  unfold decrypt_cmd. intros H.
  apply app_inv_head in H. apply app_inv_head in H.
  injection H as -> ->. now split.
Qed.

Lemma audio_enc_is_not_video_enc (l : Locals) : audio_enc l <> video_enc l.
Proof. intros H. apply path_div_inj in H. discriminate H. Qed.

Lemma leaves_in_place_spec (p : Path) (before : FS) (argv : list string)
    (r : Outcome) :
  leaves_in_place p (mkCall argv before r) = true ->
  path_exists before p = true ->
  path_exists (call_after (mkCall argv before r)) p = true.
Proof.
  unfold leaves_in_place. cbn [call_before]. intros H Hp.
  now rewrite Hp in H.
Qed.

(** The listing step on its own: whatever the listing's return code, the
    step prints its banner and the echoed command line on the output
    stream, nothing on the error stream, and returns normally. *)
Lemma list_formats_any_returncode
    (w : World) (l : Locals) (s : State) (returncode : Z) (after : FS) :
  spawn w (length (calls s)) (list_cmd l) (disk s)
    = Completed returncode after ->
  list_formats w l s =
    (mkState after
       (stdout s ++
        [ Text (nl ++ "[STEP] Listing available formats (yt-dlp -F) ...");
          Text (">>> " ++ join " " (list_cmd l)) ])
       (stderr s)
       (calls s ++ [mkCall (list_cmd l) (disk s) (Completed returncode after)]),
     inr tt).
Proof.
  intros E.
  cbv beta iota zeta delta
    [list_formats run subprocess_run_check bind ret try_except print].
  cbn [disk stdout stderr calls]. rewrite E. rewrite <- app_assoc.
  destruct (Z.eqb returncode 0); reflexivity.
Qed.

(** ** Running [main] *)

Lemma setup_resolved (w : World) (l : Locals) (s : State) :
  resolve w = Some l ->
  setup w s =
    (mkState (make_dir (disk s) (tmp l))
       (stdout s ++ [Text ("[INFO] Using temp dir: " ++ tmp l)])
       (stderr s) (calls s),
     inr l).
Proof.
  unfold resolve, setup, which_or_exit.
  destruct (which w "yt-dlp"); [|discriminate].
  destruct (which w "mp4decrypt"); [|discriminate].
  destruct (which w "ffmpeg"); [|discriminate].
  intros [= <-]. reflexivity.
Qed.

Lemma setup_unresolved (w : World) (s : State) :
  resolve w = None ->
  exists cmd,
    In cmd ["yt-dlp"; "mp4decrypt"; "ffmpeg"] /\ which w cmd = None /\
    setup w s =
      (mkState (disk s) (stdout s) (stderr s ++ [tool_missing_message cmd])
         (calls s),
       inl (SystemExit 1)).
Proof.
  unfold resolve, setup, which_or_exit.
  destruct (which w "yt-dlp") eqn:Hy.
  - destruct (which w "mp4decrypt") eqn:Hm.
    + destruct (which w "ffmpeg") eqn:Hf; [discriminate|].
      intros _. exists "ffmpeg". cbn. auto 6.
    + intros _. exists "mp4decrypt". cbn. auto 6.
  - intros _. exists "yt-dlp". cbn. auto 6.
Qed.

Lemma resolve_none_iff (w : World) :
  resolve w = None <->
  which w "yt-dlp" = None \/ which w "mp4decrypt" = None \/
  which w "ffmpeg" = None.
Proof.
  unfold resolve.
  destruct (which w "yt-dlp"), (which w "mp4decrypt"), (which w "ffmpeg");
    split; intros H; try tauto; try discriminate;
    destruct H as [H|[H|H]]; discriminate.
Qed.

Lemma run_main_resolved (w : World) (l : Locals) (fs : FS) :
  resolve w = Some l ->
  run_main w fs =
    try_block w l
      (mkState (make_dir fs (tmp l))
         [Text ("[INFO] Using temp dir: " ++ tmp l)] [] []).
Proof.
  intros H. unfold run_main, main, bind. now rewrite (setup_resolved _ _ _ H).
Qed.

(** Symbolic execution of the [try] block: bring the next test of the
    outside world to the head, then split on it. *)
Ltac whnf_in Hr :=
  match type of Hr with
  | ?r = ?X =>
      let X' := eval lazy head beta iota zeta delta
        [try_block through_decrypt through_video_decrypt list_formats
         download_video download_audio validate_files decrypt_video
         decrypt_audio merge_tracks report_success main_handlers run
         subprocess_run_check copy2 bind ret raise try_except print eprint
         sys_exit get_disk negb andb] in X in
      change (r = X') in Hr
  end;
  cbv beta iota delta [disk stdout stderr calls app length] in Hr.

Ltac step_in Hr :=
  whnf_in Hr;
  match type of Hr with
  | context [spawn ?w ?n ?a ?f] =>
      let rc := fresh "rc" in
      let fs := fresh "fs" in
      let E := fresh "E" in
      destruct (spawn w n a f) as [rc fs|] eqn:E
  | context [Z.eqb ?rc 0] =>
      let E := fresh "Hrc" in destruct (Z.eqb_spec rc 0) as [E|E]
  | context [path_exists ?f ?p] =>
      match goal with
      | H : path_exists f p = _ |- _ => rewrite H in Hr
      | _ => let E := fresh "Hp" in destruct (path_exists f p) eqn:E
      end
  | context [read_file ?f ?p] =>
      match goal with
      | H : read_file f p = _ |- _ => rewrite H in Hr
      | _ => let E := fresh "Hf" in destruct (read_file f p) eqn:E
      end
  | context [merged_candidates ?l ?f] =>
      let E := fresh "Hc" in destruct (merged_candidates l f) eqn:E
  end.

Ltac explore Hr := repeat step_in Hr; whnf_in Hr.

Ltac commands :=
  cbv [list_cmd video_cmd audio_cmd decrypt_cmd merge_cmd key_args KEYS
       fold_left app] in *.

Ltac split_in Hin :=
  cbn [In map] in Hin;
  repeat match type of Hin with
         | _ \/ _ => destruct Hin as [Hin|Hin]
         | False => contradiction
         end.

(** Two command lines of the pipeline that differ do so in their second or
    third word. *)
Ltac wrong_cmd H :=
  exfalso;
  apply (f_equal (fun argv => (nth_error argv 1, nth_error argv 2))) in H;
  cbv in H; discriminate H.

(** From a hypothesis about every call of a run to one fact per call. *)
Ltac per_call H :=
  rewrite forallb_forall in H; rewrite <- Forall_forall in H;
  repeat match type of H with
         | Forall _ (_ :: _) =>
             let Hc := fresh "Hcall" in
             apply Forall_cons_iff in H; destruct H as [Hc H]
         end;
  clear H.

(** Push every file known to exist through every call known to keep it. *)
Ltac carry_files :=
  repeat match goal with
         | K : keeps ?a ?b = true, P : path_exists ?a ?p = true |- _ =>
             lazymatch goal with
             | _ : path_exists b p = true |- _ => fail
             | _ => pose proof (keeps_file a b p K P)
             end
         end.

Ltac missing_but_there :=
  match goal with
  | N : path_exists ?f ?p = false, P : path_exists ?f ?p = true |- _ =>
      exfalso; rewrite N in P; discriminate P
  end.

Ltac not_that_message H :=
  exfalso; cbv [no_candidate_message String.append] in H; discriminate H.


(** ** Cutting a run of [main] at an intermediate point *)

Lemma to_merge_resolved (w : World) (s0 s : State) (l : Locals) :
  to_merge w s0 = (s, inr l) -> resolve w = Some l.
Proof.
  unfold to_merge, bind. destruct (resolve w) as [l'|] eqn:Hres.
  - rewrite (setup_resolved _ _ _ Hres).
    destruct (through_decrypt w l' _) as [s' [e|[]]]; [discriminate|].
    now intros [= _ <-].
  - destruct (setup_unresolved w s0 Hres) as (cmd & _ & _ & E).
    rewrite E. discriminate.
Qed.

Lemma main_after_to_merge (w : World) (s0 s : State) (l : Locals) :
  to_merge w s0 = (s, inr l) ->
  main w s0 =
    try_except (merge_tracks w l ;; report_success l) main_handlers s.
Proof.
  unfold to_merge, main, try_block, bind, try_except.
  destruct (setup w s0) as [s1 [e|l1]]; [discriminate|].
  destruct (through_decrypt w l1 s1) as [s2 [e|[]]]; [discriminate|].
  now intros [= <- <-].
Qed.

Lemma to_audio_decrypt_resolved (w : World) (s0 s : State) (l : Locals) :
  to_audio_decrypt w s0 = (s, inr l) -> resolve w = Some l.
Proof.
  unfold to_audio_decrypt, bind. destruct (resolve w) as [l'|] eqn:Hres.
  - rewrite (setup_resolved _ _ _ Hres).
    destruct (through_video_decrypt w l' _) as [s' [e|[]]]; [discriminate|].
    now intros [= _ <-].
  - destruct (setup_unresolved w s0 Hres) as (cmd & _ & _ & E).
    rewrite E. discriminate.
Qed.

Lemma main_after_video_decrypt (w : World) (s0 s : State) (l : Locals) :
  to_audio_decrypt w s0 = (s, inr l) ->
  main w s0 =
    try_except
      (decrypt_audio w l ;; merge_tracks w l ;; report_success l)
      main_handlers s.
Proof.
  unfold to_audio_decrypt, main, try_block, through_decrypt, bind, try_except.
  destruct (setup w s0) as [s1 [e|l1]]; [discriminate|].
  destruct (through_video_decrypt w l1 s1) as [s2 [e|[]]]; [discriminate|].
  now intros [= <- <-].
Qed.

Lemma output_is_not_in_tmp (d : Path) (n : string) : path_div d n <> OUTPUT.
Proof.
  intros E. apply (f_equal contains_slash) in E.
  unfold path_div in E. rewrite contains_slash_app in E. cbn in E.
  now rewrite orb_true_r in E.
Qed.

(** What has happened when a run turns to the audio track: the listing,
    both downloads and the video decrypt, the last three with exit code 0,
    and nothing on the error stream. *)
Lemma to_audio_decrypt_history (w : World) (fs : FS) (s : State) (l : Locals) :
  to_audio_decrypt w (initial fs) = (s, inr l) ->
  map call_argv (calls s) =
    [ list_cmd l; video_cmd l; audio_cmd l;
      decrypt_cmd l (video_enc l) (video_dec l) ] /\
  stderr s = [].
Proof.
  intros H. pose proof (to_audio_decrypt_resolved _ _ _ _ H) as Hres.
  unfold to_audio_decrypt, bind in H.
  rewrite (setup_resolved _ _ _ Hres) in H.
  cbn [initial disk stdout stderr calls app] in H.
  remember (through_video_decrypt w l _) as r eqn:Hr.
  explore Hr.
  all: subst r; try discriminate H.
  all: injection H as <-; split; reflexivity.
Qed.


Lemma script_keeps_throughout (start finish : FS) (cs : list Call) :
  script_keeps start cs finish = true ->
  forallb removes_nothing cs = true ->
  keeps start finish = true /\
  Forall (fun c => keeps (call_before c) finish = true /\
                   keeps (call_after c) finish = true) cs.
Proof.
  revert start. induction cs as [|c cs IH]; intros start Hs Ht; cbn in *.
  - now split.
  - apply andb_true_iff in Hs, Ht. destruct Hs as [Hs1 Hs2], Ht as [Ht1 Ht2].
    destruct (IH _ Hs2 Ht2) as [Hk Hall].
    assert (Hb : keeps (call_before c) finish = true)
      by (eapply keeps_trans; [exact Ht1 | exact Hk]).
    split.
    + eapply keeps_trans; [exact Hs1 | exact Hb].
    + constructor; [now split | exact Hall].
Qed.

(** The script's own changes to the disk: it creates the temporary
    directory before the first subprocess and, at most, writes the final
    output after the last; neither removes anything. *)
Lemma script_only_adds (w : World) (fs : FS) :
  script_keeps fs (calls (final w fs)) (disk (final w fs)) = true /\
  (forall l, resolve w = Some l ->
     exists c rest,
       calls (final w fs) = c :: rest /\
       call_before c = make_dir fs (tmp l)).
Proof.
  destruct (resolve w) as [l|] eqn:Hres.
  - cut (script_keeps fs (calls (final w fs)) (disk (final w fs)) = true /\
         exists c rest,
           calls (final w fs) = c :: rest /\
           call_before c = make_dir fs (tmp l)).
    { intros [H1 H2]. split; [exact H1|]. now intros l' [= <-]. }
    unfold final.
    remember (run_main w fs) as r eqn:Hr.
    rewrite (run_main_resolved _ _ _ Hres) in Hr.
    explore Hr.
    all: subst r; cbn [fst calls disk].
    all: split; [|eexists; eexists; split; reflexivity].
    all: cbn [script_keeps call_before call_after call_result].
    all: rewrite ?keeps_refl, ?keeps_make_dir, ?keeps_write_file.
    all: reflexivity.
  - destruct (setup_unresolved w (initial fs) Hres) as (cmd & _ & _ & E).
    unfold final, run_main, main, bind. rewrite E. cbn.
    split; [apply keeps_refl | discriminate].
Qed.

Ltac not_success H :=
  exfalso; cbv [success_line nl OUTPUT String.append] in H; discriminate H.

(** What every run with the tools resolved looks like at exit. *)
Lemma run_summary (w : World) (fs : FS) (l : Locals) :
  resolve w = Some l ->
  filter is_echo (stdout (final w fs))
    = map (fun c => echo (call_argv c)) (calls (final w fs)) /\
  (exists fifth rest,
     pipeline l fifth = (map call_argv (calls (final w fs)) ++ rest)%list /\
     (fifth = decrypt_cmd l (audio_enc l) (audio_dec l) \/
      exists src, fifth = decrypt_cmd l src (video_dec l))) /\
  ((exit_code w fs = 0%Z /\ stderr (final w fs) = [] /\
    In success_line (stdout (final w fs)) /\
    firstn 4 (map call_argv (calls (final w fs)))
      = [ list_cmd l; video_cmd l; audio_cmd l;
          decrypt_cmd l (video_enc l) (video_dec l) ] /\
    5 <= length (calls (final w fs)) /\
    forallb returned_zero (tl (calls (final w fs))) = true) \/
   (exit_code w fs = 1%Z /\ length (stderr (final w fs)) = 1 /\
    ~ In success_line (stdout (final w fs)))).
Proof.
  intros Hres.
  unfold exit_code, final.
  remember (run_main w fs) as r eqn:Hr.
  rewrite (run_main_resolved _ _ _ Hres) in Hr.
  explore Hr.
  all: subst r; cbn [fst snd calls stdout stderr exit_status map].
  all: split; [reflexivity|].
  all: split;
    [ unfold pipeline; cbn [app]; eexists; eexists;
      split; [reflexivity | first [ left; reflexivity
                                  | right; eexists; reflexivity ]]
    | ].
  all: first
    [ left; split; [reflexivity|]; split; [reflexivity|];
      split; [cbn [In]; repeat first [left; reflexivity | right]|];
      split; [reflexivity|]; split; [cbn [length]; lia|];
      subst; reflexivity
    | right; split; [reflexivity|]; split; [reflexivity|];
      intros H; split_in H; not_success H ].
Qed.

(** How a run ends after a call that could not be started, and after a
    call other than the listing that returned a non-zero code. *)
Lemma failed_call_ends_run (w : World) (fs : FS) (l : Locals) :
  resolve w = Some l ->
  forall i c,
    nth_error (calls (final w fs)) i = Some c ->
    (launch_failed c = true ->
     exit_code w fs = 1%Z /\ length (calls (final w fs)) = S i /\
     stderr (final w fs) = [Unexpected OSError] /\
     last (stdout (final w fs)) (Text "") = echo (call_argv c)) /\
    (returned_nonzero c = true -> i <> 0 ->
     exit_code w fs = 1%Z /\ length (calls (final w fs)) = S i /\
     (exists returncode after,
        call_result c = Completed returncode after /\
        stderr (final w fs) = [CommandFailed returncode (call_argv c)]) /\
     last (stdout (final w fs)) (Text "") = check_logs_line).
Proof.
  intros Hres.
  unfold exit_code, final.
  remember (run_main w fs) as r eqn:Hr.
  rewrite (run_main_resolved _ _ _ Hres) in Hr.
  explore Hr.
  all: subst r; cbn [fst snd calls stdout stderr exit_status length].
  all: intros i c Hnth.
  all: repeat (destruct i as [|i]; cbn [nth_error] in Hnth;
               [ injection Hnth as <-;
                 cbn [launch_failed returned_nonzero call_result call_argv];
                 split;
                 [ intros Hlf; first [ discriminate Hlf
                                     | repeat apply conj; reflexivity ]
                 | intros Hnz Hi;
                   first [ discriminate Hnz
                         | subst; discriminate Hnz
                         | exfalso; apply Hi; reflexivity
                         | split; [reflexivity|]; split; [reflexivity|];
                           split; [eexists; eexists; split; reflexivity
                                  | reflexivity] ] ]
               | ]).
  all: exfalso; destruct i; discriminate Hnth.
Qed.

Lemma to_validation_resolved (w : World) (s0 s : State) (l : Locals) :
  to_validation w s0 = (s, inr l) -> resolve w = Some l.
Proof.
  unfold to_validation, bind. destruct (resolve w) as [l'|] eqn:Hres.
  - rewrite (setup_resolved _ _ _ Hres).
    destruct (list_formats w l' _) as [s1 [e|[]]]; [discriminate|].
    destruct (download_video w l' _) as [s2 [e|[]]]; [discriminate|].
    destruct (download_audio w l' _) as [s3 [e|[]]]; [discriminate|].
    now intros [= _ <-].
  - destruct (setup_unresolved w s0 Hres) as (cmd & _ & _ & E).
    rewrite E. discriminate.
Qed.

Lemma main_after_downloads (w : World) (s0 s : State) (l : Locals) :
  to_validation w s0 = (s, inr l) ->
  main w s0 =
    try_except
      (validate_files l ;; decrypt_video w l ;; decrypt_audio w l ;;
       merge_tracks w l ;; report_success l)
      main_handlers s.
Proof.
  unfold to_validation, main, try_block, through_decrypt,
    through_video_decrypt, bind, try_except.
  destruct (setup w s0) as [s1 [e|l1]]; [discriminate|].
  destruct (list_formats w l1 s1) as [s2 [e|[]]]; [discriminate|].
  destruct (download_video w l1 s2) as [s3 [e|[]]]; [discriminate|].
  destruct (download_audio w l1 s3) as [s4 [e|[]]]; [discriminate|].
  intros [= <- <-].
  destruct (validate_files l1 s4) as [s5 [e|[]]]; [reflexivity|].
  destruct (decrypt_video w l1 s5) as [s6 [e|[]]]; reflexivity.
Qed.

(** What has happened when a run reaches the validation: the listing and
    the two downloads, the downloads with exit code 0, and nothing on the
    error stream. *)
Lemma to_validation_history (w : World) (fs : FS) (s : State) (l : Locals) :
  to_validation w (initial fs) = (s, inr l) ->
  exists c0 c1 c2,
    calls s = [c0; c1; c2] /\
    map call_argv (calls s) = [list_cmd l; video_cmd l; audio_cmd l] /\
    returned_zero c1 = true /\ returned_zero c2 = true /\
    disk s = call_after c2 /\
    stdout s =
      [ Text ("[INFO] Using temp dir: " ++ tmp l);
        Text (nl ++ "[STEP] Listing available formats (yt-dlp -F) ...");
        echo (list_cmd l);
        Text (nl ++ "[STEP] Downloading best video (encrypted) ...");
        echo (video_cmd l);
        Text (nl ++ "[STEP] Downloading best audio (encrypted) ...");
        echo (audio_cmd l) ] /\
    stderr s = [].
Proof.
  intros H. pose proof (to_validation_resolved _ _ _ _ H) as Hres.
  unfold to_validation, bind in H.
  rewrite (setup_resolved _ _ _ Hres) in H.
  cbn [initial disk stdout stderr calls app] in H.
  remember (list_formats w l _) as r eqn:Hr.
  whnf_in Hr.
  destruct (spawn w 0 (list_cmd l) (make_dir fs (tmp l))) as [rc0 fs0|] eqn:E0;
    whnf_in Hr;
    [ destruct (Z.eqb rc0 0); whnf_in Hr | ]; subst r; try discriminate H.
  all: remember (download_video w l _) as r eqn:Hr; whnf_in Hr.
  all: destruct (spawn w 1 (video_cmd l) fs0) as [rc1 fs1|] eqn:E1;
    whnf_in Hr;
    [ destruct (Z.eqb_spec rc1 0); whnf_in Hr | ]; subst r;
    try discriminate H.
  all: remember (download_audio w l _) as r eqn:Hr; whnf_in Hr.
  all: destruct (spawn w 2 (audio_cmd l) fs1) as [rc2 fs2|] eqn:E2;
    whnf_in Hr;
    [ destruct (Z.eqb_spec rc2 0); whnf_in Hr | ]; subst r;
    try discriminate H.
  all: injection H as <-; subst; cbn [calls disk stderr stdout].
  all: do 3 eexists; repeat apply conj; reflexivity.
Qed.

(** ** The return code of the listing

    Two runs that agree on everything but the result on record for the
    first call stay in step from there on. *)

Lemma in_step_ret {A : Type} (a : A) : in_step (ret a) (ret a).
Proof. intros s s' H. split; [exact H | reflexivity]. Qed.

Lemma in_step_raise {A : Type} (e : exn) :
  in_step (@raise A e) (@raise A e).
Proof. intros s s' H. split; [exact H | reflexivity]. Qed.

Lemma in_step_sys_exit {A : Type} (code : Z) :
  in_step (@sys_exit A code) (@sys_exit A code).
Proof. apply in_step_raise. Qed.

Lemma in_step_print (ln : line) : in_step (print ln) (print ln).
Proof.
  intros s s' (Hd & Ho & He & Hc). split; [|reflexivity].
  cbn. rewrite Ho. repeat split; assumption.
Qed.

Lemma in_step_eprint (ln : line) : in_step (eprint ln) (eprint ln).
Proof.
  intros s s' (Hd & Ho & He & Hc). split; [|reflexivity].
  cbn. rewrite He. repeat split; assumption.
Qed.

Lemma in_step_get_disk : in_step get_disk get_disk.
Proof.
  intros s s' H. split; [exact H|]. cbn. destruct H as (-> & _). reflexivity.
Qed.

Lemma in_step_bind {A B : Type} (m m' : M A) (f f' : A -> M B) :
  in_step m m' -> (forall a, in_step (f a) (f' a)) ->
  in_step (bind m f) (bind m' f').
Proof.
  intros Hm Hf s s' H. unfold bind.
  destruct (Hm s s' H) as [Hs Hr].
  destruct (m s) as [s1 r1], (m' s') as [s1' r1']. cbn in Hs, Hr. subst r1'.
  destruct r1 as [e|a]; [split; [exact Hs | reflexivity]|].
  exact (Hf a s1 s1' Hs).
Qed.

Lemma in_step_try_except {A : Type} (m m' : M A) (h : exn -> option (M A)) :
  in_step m m' ->
  (forall e k, h e = Some k -> in_step k k) ->
  in_step (try_except m h) (try_except m' h).
Proof.
  intros Hm Hh s s' H. unfold try_except.
  destruct (Hm s s' H) as [Hs Hr].
  destruct (m s) as [s1 r1], (m' s') as [s1' r1']. cbn in Hs, Hr. subst r1'.
  destruct r1 as [e|a]; [|split; [exact Hs | reflexivity]].
  destruct (h e) as [k|] eqn:E; [|split; [exact Hs | reflexivity]].
  exact (Hh e k E s1 s1' Hs).
Qed.

Lemma in_step_copy2 (src dst : Path) : in_step (copy2 src dst) (copy2 src dst).
Proof.
  intros s s' (Hd & Ho & He & Hc). unfold copy2. rewrite <- Hd.
  destruct (read_file (disk s) src) as [c|]; cbn.
  - split; [|reflexivity]. repeat split; assumption.
  - split; [|reflexivity]. repeat split; assumption.
Qed.

(** A child other than the first is the same child in both worlds. *)
Lemma in_step_subprocess_run_check
    (w : World) (returncode : Z) (cmd : list string) :
  in_step (subprocess_run_check w cmd)
          (subprocess_run_check (listing_returns returncode w) cmd).
Proof.
  intros s s' (Hd & Ho & He & c & c' & later & Hc & Hc' & Hargv).
  unfold subprocess_run_check. rewrite <- Hd, <- Ho, <- He, Hc, Hc'.
  cbn [length listing_returns spawn].
  destruct (spawn w (S (length later)) cmd (disk s)) as [rc after|].
  - destruct (Z.eqb rc 0); cbn; (split; [|reflexivity]);
      repeat split; trivial; exists c, c', (later ++ [mkCall cmd (disk s) (Completed rc after)])%list;
      repeat split; trivial.
  - cbn. split; [|reflexivity].
    repeat split; trivial.
    exists c, c', (later ++ [mkCall cmd (disk s) LaunchFailed])%list.
    repeat split; trivial.
Qed.

Ltac stay_in_step :=
  repeat first
    [ apply in_step_bind; [|intros ?]
    | apply in_step_print
    | apply in_step_eprint
    | apply in_step_get_disk
    | apply in_step_copy2
    | apply in_step_subprocess_run_check
    | apply in_step_ret
    | apply in_step_sys_exit
    | apply in_step_raise
    | match goal with
      | |- in_step (if ?b then _ else _) (if ?b then _ else _) => destruct b
      | |- in_step (match ?x with [] => _ | _ :: _ => _ end) _ => destruct x
      end ].

Lemma in_step_run (w : World) (returncode : Z) (cmd : list string) :
  in_step (run w cmd) (run (listing_returns returncode w) cmd).
Proof. unfold run. stay_in_step. Qed.

Lemma in_step_main_handlers (e : exn) (k : M unit) :
  main_handlers e = Some k -> in_step k k.
Proof.
  destruct e; cbn; intros [= <-]; stay_in_step.
Qed.

Lemma in_step_after_listing (w : World) (returncode : Z) (l : Locals) :
  in_step (after_listing w l) (after_listing (listing_returns returncode w) l).
Proof.
  unfold after_listing.
  apply in_step_try_except; [|apply in_step_main_handlers].
  unfold download_video, download_audio, validate_files, decrypt_video,
    decrypt_audio, merge_tracks, report_success.
  stay_in_step; apply in_step_run.
Qed.

Lemma try_block_after_listing (w : World) (l : Locals) (s : State) :
  try_block w l s =
    match list_formats w l s with
    | (s1, inr _) => after_listing w l s1
    | (s1, inl e) =>
        match main_handlers e with
        | Some handler => handler s1
        | None => (s1, inl e)
        end
    end.
Proof.
  unfold try_block, through_decrypt, through_video_decrypt, after_listing,
    try_except, bind.
  destruct (list_formats w l s) as [s1 [e|[]]]; reflexivity.
Qed.

Lemma list_formats_unstarted (w : World) (l : Locals) (s : State) :
  spawn w (length (calls s)) (list_cmd l) (disk s) = LaunchFailed ->
  list_formats w l s =
    (mkState (disk s)
       (stdout s ++
        [ Text (nl ++ "[STEP] Listing available formats (yt-dlp -F) ...");
          Text (">>> " ++ join " " (list_cmd l)) ])
       (stderr s)
       (calls s ++ [mkCall (list_cmd l) (disk s) LaunchFailed]),
     inl OSError).
Proof.
  intros E.
  cbv beta iota zeta delta
    [list_formats run subprocess_run_check bind ret try_except print].
  cbn [disk stdout stderr calls]. rewrite E. rewrite <- app_assoc.
  reflexivity.
Qed.

Lemma resolve_listing_returns (returncode : Z) (w : World) :
  resolve (listing_returns returncode w) = resolve w.
Proof. reflexivity. Qed.

(** The return code of the listing does not matter: with any other code in
    its place the run prints the same lines on both streams, leaves the
    same disk, starts the same later children with the same results, and
    exits with the same code. *)
Lemma listing_returncode_is_immaterial
    (w : World) (fs : FS) (l : Locals) (returncode : Z) :
  resolve w = Some l ->
  stdout (final (listing_returns returncode w) fs) = stdout (final w fs) /\
  stderr (final (listing_returns returncode w) fs) = stderr (final w fs) /\
  disk (final (listing_returns returncode w) fs) = disk (final w fs) /\
  exit_code (listing_returns returncode w) fs = exit_code w fs /\
  tl (calls (final (listing_returns returncode w) fs))
    = tl (calls (final w fs)) /\
  map call_argv (calls (final (listing_returns returncode w) fs))
    = map call_argv (calls (final w fs)).
Proof.
  intros Hres.
  unfold exit_code, final.
  rewrite (run_main_resolved _ _ _ Hres).
  rewrite (run_main_resolved (listing_returns returncode w) l fs)
    by (rewrite resolve_listing_returns; exact Hres).
  rewrite !try_block_after_listing.
  destruct (spawn w 0 (list_cmd l) (make_dir fs (tmp l)))
    as [rc after|] eqn:E.
  - rewrite (list_formats_any_returncode w l _ rc after) by exact E.
    rewrite (list_formats_any_returncode (listing_returns returncode w) l _
               returncode after)
      by (cbn [listing_returns spawn calls disk length]; now rewrite E).
    match goal with
    | |- context [after_listing w l ?s] =>
        match goal with
        | |- context [after_listing (listing_returns returncode w) l ?s'] =>
            destruct (in_step_after_listing w returncode l s s') as [Hs Hr]
        end
    end.
    { cbn. repeat split.
      eexists; eexists; exists []. repeat split. }
    rewrite <- Hr.
    destruct Hs as (Hd & Ho & He & c & c' & later & Hc & Hc' & Hargv).
    rewrite Hd, Ho, He, Hc, Hc'. cbn [tl map]. rewrite Hargv.
    repeat split.
  - rewrite (list_formats_unstarted w l) by exact E.
    rewrite (list_formats_unstarted (listing_returns returncode w) l)
      by (cbn [listing_returns spawn calls disk length]; now rewrite E).
    repeat split.
Qed.

(** C3. When at least one of yt-dlp, mp4decrypt and ffmpeg is not found on
    the search path, [main] prints the tool-missing diagnostic for the first
    missing one on the error stream and exits with code 1; the disk is as it
    was (no temporary directory was created) and no subprocess was started. *)
Theorem missing_tool_exits_before_any_work (w : World) (fs : FS) :
  which w "yt-dlp" = None \/ which w "mp4decrypt" = None \/
  which w "ffmpeg" = None ->
  exit_code w fs = 1%Z /\
  (exists cmd,
     In cmd ["yt-dlp"; "mp4decrypt"; "ffmpeg"] /\ which w cmd = None /\
     stderr (final w fs) = [tool_missing_message cmd]) /\
  disk (final w fs) = fs /\
  calls (final w fs) = [].
Proof.
  intros H. apply resolve_none_iff in H.
  destruct (setup_unresolved w (initial fs) H) as (cmd & Hin & Hw & Hs).
  unfold exit_code, final, run_main, main, bind. rewrite Hs. cbn.
  repeat split; trivial. now exists cmd.
Qed.

(** On the machine of [Scenario.ffmpeg_missing] there is no ffmpeg. *)
Lemma missing_tool_witness :
  (which Scenario.ffmpeg_missing "yt-dlp" = None \/
   which Scenario.ffmpeg_missing "mp4decrypt" = None \/
   which Scenario.ffmpeg_missing "ffmpeg" = None) /\
  exit_code Scenario.ffmpeg_missing Scenario.empty_disk = 1%Z /\
  disk (final Scenario.ffmpeg_missing Scenario.empty_disk)
    = Scenario.empty_disk /\
  calls (final Scenario.ffmpeg_missing Scenario.empty_disk) = [].
Proof.
  assert (H : which Scenario.ffmpeg_missing "yt-dlp" = None \/
              which Scenario.ffmpeg_missing "mp4decrypt" = None \/
              which Scenario.ffmpeg_missing "ffmpeg" = None)
    by (right; right; vm_compute; reflexivity).
  pose proof (missing_tool_exits_before_any_work
                Scenario.ffmpeg_missing Scenario.empty_disk H)
    as (H1 & _ & H2 & H3).
  exact (conj H (conj H1 (conj H2 H3))).
Defined.

(** C4. When the video download (step 2) returns a non-zero exit code,
    [main] exits with code 1 and the only subprocesses of the run are the
    format listing and that video download, both yt-dlp: mp4decrypt, the
    audio download and ffmpeg are never started. *)
Theorem failed_video_download_stops_run
    (w : World) (fs : FS) (l : Locals) (c : Call) :
  resolve w = Some l ->
  In c (calls (final w fs)) ->
  call_argv c = video_cmd l ->
  returned_nonzero c = true ->
  exit_code w fs = 1%Z /\
  map call_argv (calls (final w fs)) = [list_cmd l; video_cmd l] /\
  (forall c', In c' (calls (final w fs)) ->
     program c' = Some (yt_dlp l) /\
     program c' <> Some (mp4decrypt l) /\
     program c' <> Some (ffmpeg l)) /\
  ~ In (audio_cmd l) (map call_argv (calls (final w fs))).
Proof.
  intros Hres Hin Hargv Hnz.
  destruct (resolve_distinct _ _ Hres) as (Hym & Hyf & _).
  unfold exit_code, final in *.
  remember (run_main w fs) as r eqn:Hr.
  rewrite (run_main_resolved _ _ _ Hres) in Hr.
  explore Hr.
  all: subst r; cbn [fst snd calls exit_status map In] in *.
  all: split_in Hin; subst c;
    cbn [call_argv call_result returned_nonzero] in Hargv, Hnz.
  all: try wrong_cmd Hargv.
  all: try discriminate Hnz.
  all: try (subst; discriminate Hnz).
  all: split; [reflexivity | split; [reflexivity | split]].
  all: try (intros c' Hc'; split_in Hc'; subst c';
            cbv [program hd_error call_argv list_cmd video_cmd];
            repeat split; congruence).
  all: intros Hc'; split_in Hc'; wrong_cmd Hc'.
Qed.

(** The run of [Scenario.video_fails]: the listing, then the failed video
    download, then exit 1. *)
Lemma failed_video_download_witness :
  (resolve Scenario.video_fails = Some Scenario.locals /\
   In Scenario.failed_download
      (calls (final Scenario.video_fails Scenario.empty_disk)) /\
   call_argv Scenario.failed_download = video_cmd Scenario.locals /\
   returned_nonzero Scenario.failed_download = true) /\
  exit_code Scenario.video_fails Scenario.empty_disk = 1%Z /\
  map call_argv (calls (final Scenario.video_fails Scenario.empty_disk)) =
    [list_cmd Scenario.locals; video_cmd Scenario.locals].
Proof.
  assert (Hres : resolve Scenario.video_fails = Some Scenario.locals)
    by (vm_compute; reflexivity).
  assert (Hin : In Scenario.failed_download
                  (calls (final Scenario.video_fails Scenario.empty_disk)))
    by (vm_compute; right; left; reflexivity).
  assert (Hargv : call_argv Scenario.failed_download
                  = video_cmd Scenario.locals)
    by (vm_compute; reflexivity).
  assert (Hnz : returned_nonzero Scenario.failed_download = true)
    by (vm_compute; reflexivity).
  pose proof (failed_video_download_stops_run _ _ _ _ Hres Hin Hargv Hnz)
    as (H1 & H2 & _).
  exact (conj (conj Hres (conj Hin (conj Hargv Hnz))) (conj H1 H2)).
Defined.
(** C1, as amended.  When all three tools are found, every subprocess of
    the run exits 0 with the file its command line names on disk, and no
    subprocess removes the file the one before it has just produced,
    [main] runs the six commands of the pipeline, [final_output.mp4] is a
    file of the current directory afterwards, nothing is printed on the
    error stream and the exit code is 0. *)
Theorem succeeding_tools_give_final_output
    (w : World) (fs : FS) (l : Locals) :
  resolve w = Some l ->
  forallb succeeds_with_output (calls (final w fs)) = true ->
  spares_previous_output (calls (final w fs)) = true ->
  exit_code w fs = 0%Z /\
  is_file (disk (final w fs)) OUTPUT = true /\
  map call_argv (calls (final w fs)) =
    [ list_cmd l; video_cmd l; audio_cmd l;
      decrypt_cmd l (video_enc l) (video_dec l);
      decrypt_cmd l (audio_enc l) (audio_dec l);
      merge_cmd l ] /\
  stderr (final w fs) = [].
Proof.
  intros Hres Hall Hspare.
  unfold exit_code, final in *.
  remember (run_main w fs) as r eqn:Hr.
  rewrite (run_main_resolved _ _ _ Hres) in Hr.
  explore Hr.
  all: subst r; cbn [fst snd calls disk stderr exit_status map] in *.
  all: per_call Hall.
  all: repeat match goal with
       | H : succeeds_with_output _ = true |- _ =>
           apply succeeds_with_output_spec in H;
           destruct H as (? & Hres_c & ?);
           cbn [call_result call_argv call_before] in *;
           try discriminate Hres_c;
           injection Hres_c as -> ->
       end.
  all: try contradiction.
  all: repeat match goal with
       | H : forall out, expected_output _ = Some out -> _ |- _ =>
           first [ specialize (H _ (expected_output_video l))
                 | specialize (H _ (expected_output_audio l))
                 | specialize (H _ (expected_output_decrypt l _ _))
                 | specialize (H _ (expected_output_merge l))
                 | clear H ]
       end.
  all: repeat match goal with
       | H : is_file ?f ?p = true |- _ =>
           lazymatch goal with
           | _ : path_exists f p = true |- _ => fail
           | _ => pose proof (is_file_path_exists _ _ H)
           end
       end.
  all: cbn [spares_previous_output call_argv] in Hspare;
    rewrite ?expected_output_list, ?expected_output_video,
      ?expected_output_audio, ?expected_output_decrypt,
      ?expected_output_merge in Hspare;
    rewrite ?andb_true_iff in Hspare.
  all: repeat match goal with
       | H : _ /\ _ |- _ => destruct H
       end.
  all: repeat match goal with
       | K : leaves_in_place ?p (mkCall _ ?a _) = true,
         P : path_exists ?a ?p = true |- _ =>
           apply leaves_in_place_spec in K; [|exact P];
           cbn [call_after call_result call_before] in K
       end.
  all: try missing_but_there.
  repeat split; assumption.
Qed.

(** In [Scenario.all_fine] every tool does its job on an empty disk. *)
Lemma succeeding_tools_witness :
  (resolve Scenario.all_fine = Some Scenario.locals /\
   forallb succeeds_with_output
     (calls (final Scenario.all_fine Scenario.empty_disk)) = true /\
   spares_previous_output
     (calls (final Scenario.all_fine Scenario.empty_disk)) = true) /\
  exit_code Scenario.all_fine Scenario.empty_disk = 0%Z /\
  is_file (disk (final Scenario.all_fine Scenario.empty_disk)) OUTPUT
    = true.
Proof.
  assert (Hres : resolve Scenario.all_fine = Some Scenario.locals)
    by (vm_compute; reflexivity).
  assert (Hall : forallb succeeds_with_output
                   (calls (final Scenario.all_fine Scenario.empty_disk))
                 = true)
    by (vm_compute; reflexivity).
  assert (Hspare : spares_previous_output
                     (calls (final Scenario.all_fine Scenario.empty_disk))
                   = true)
    by (vm_compute; reflexivity).
  pose proof (succeeding_tools_give_final_output _ _ _ Hres Hall Hspare)
    as (H1 & H2 & _).
  exact (conj (conj Hres (conj Hall Hspare)) (conj H1 H2)).
Defined.

(** C1, as stated, fails in [Cases.clearing_audio_download]: the three
    tools are found, each of the three subprocesses of the run exits 0
    with the file its command line names on disk, and yet the run ends at
    the validation with the encrypted-video-not-found line and exit code
    1, without a [final_output.mp4]: the audio download has removed the
    encrypted video. *)
Lemma succeeding_tools_can_fail_the_run :
  resolve Cases.clearing_audio_download = Some Scenario.locals /\
  forallb succeeds_with_output
    (calls (final Cases.clearing_audio_download Scenario.empty_disk))
    = true /\
  map call_argv
    (calls (final Cases.clearing_audio_download Scenario.empty_disk))
    = [ list_cmd Scenario.locals; video_cmd Scenario.locals;
        audio_cmd Scenario.locals ] /\
  exit_code Cases.clearing_audio_download Scenario.empty_disk = 1%Z /\
  stderr (final Cases.clearing_audio_download Scenario.empty_disk)
    = [video_missing_message Scenario.locals] /\
  path_exists
    (disk (final Cases.clearing_audio_download Scenario.empty_disk)) OUTPUT
    = false.
Proof.
  repeat apply conj; vm_compute; reflexivity.
Qed.
(** C8. Every call of a run that starts the resolved mp4decrypt has the
    command line [mp4decrypt --key K1 --key K2 --key K3 --key K4 --key K5
    SRC DST], the five pairs of [KEYS] in their order, each after its own
    [--key]; this holds alike for the video decrypt, the audio decrypt and
    the decrypt of the first fallback candidate. *)
Theorem every_decrypt_call_carries_all_keys
    (w : World) (fs : FS) (l : Locals) (c : Call) :
  resolve w = Some l ->
  In c (calls (final w fs)) ->
  program c = Some (mp4decrypt l) ->
  length KEYS = 5 /\
  exists src dst,
    call_argv c =
      (mp4decrypt l :: flat_map (fun k => ["--key"; k]) KEYS ++ [src; dst])%list /\
    ((src = video_enc l /\ dst = video_dec l) \/
     (src = audio_enc l /\ dst = audio_dec l) \/
     (hd_error (merged_candidates l (call_before c)) = Some src /\
      path_exists (call_before c) (audio_enc l) = false /\
      dst = video_dec l)).
Proof.
  intros Hres Hin Hprog.
  destruct (resolve_distinct _ _ Hres) as (Hym & _ & Hmf).
  split; [reflexivity|].
  unfold final in *.
  remember (run_main w fs) as r eqn:Hr.
  rewrite (run_main_resolved _ _ _ Hres) in Hr.
  explore Hr.
  all: subst r; cbn [fst calls In] in Hin.
  all: split_in Hin; subst c; cbn [call_argv call_before].
  all: try (exfalso; cbv [program call_argv list_cmd video_cmd audio_cmd
                          merge_cmd hd_error] in Hprog; congruence).
  all: match goal with
       | |- exists src dst, decrypt_cmd _ ?s ?d = _ /\ _ =>
           exists s, d; split; [reflexivity|]
       end.
  all: try (left; split; reflexivity).
  all: try (right; left; split; reflexivity).
  all: right; right.
  all: match goal with
       | Hc : merged_candidates _ _ = _,
         Hp : path_exists _ (audio_enc _) = false |- _ =>
           rewrite Hc, Hp; repeat split
       end.
Qed.

(** The audio decrypt of the run in [Scenario.all_fine]. *)
Lemma every_decrypt_call_witness :
  (resolve Scenario.all_fine = Some Scenario.locals /\
   In Scenario.audio_decrypt_call
      (calls (final Scenario.all_fine Scenario.empty_disk)) /\
   program Scenario.audio_decrypt_call = Some (mp4decrypt Scenario.locals)) /\
  length KEYS = 5 /\
  exists src dst,
    call_argv Scenario.audio_decrypt_call =
      (mp4decrypt Scenario.locals ::
       flat_map (fun k => ["--key"; k]) KEYS ++ [src; dst])%list /\
    ((src = video_enc Scenario.locals /\ dst = video_dec Scenario.locals) \/
     (src = audio_enc Scenario.locals /\ dst = audio_dec Scenario.locals) \/
     (hd_error (merged_candidates Scenario.locals
                  (call_before Scenario.audio_decrypt_call)) = Some src /\
      path_exists (call_before Scenario.audio_decrypt_call)
        (audio_enc Scenario.locals) = false /\
      dst = video_dec Scenario.locals)).
Proof.
  assert (Hres : resolve Scenario.all_fine = Some Scenario.locals)
    by (vm_compute; reflexivity).
  assert (Hin : In Scenario.audio_decrypt_call
                  (calls (final Scenario.all_fine Scenario.empty_disk)))
    by (vm_compute; do 4 right; left; reflexivity).
  assert (Hprog : program Scenario.audio_decrypt_call
                  = Some (mp4decrypt Scenario.locals))
    by (vm_compute; reflexivity).
  exact (conj (conj Hres (conj Hin Hprog))
           (every_decrypt_call_carries_all_keys _ _ _ _ Hres Hin Hprog)).
Defined.

(** C5, as amended.  When a run reaches the decrypt step, has decrypted
    the video, and then finds neither the encrypted audio nor any entry
    [*.mp4] of the temporary directory other than [video.decrypted.mp4],
    [main] prints the no-candidate diagnostic on the error stream and exits
    with code 1 there and then: no further subprocess is started and the
    disk is left as the video decrypt left it.  The encrypted video counts
    as a candidate, so in such a run it is no longer on disk. *)
Theorem no_audio_and_no_candidate_is_fatal
    (w : World) (fs : FS) (s : State) (l : Locals) :
  to_audio_decrypt w (initial fs) = (s, inr l) ->
  path_exists (disk s) (audio_enc l) = false ->
  merged_candidates l (disk s) = [] ->
  exit_code w fs = 1%Z /\
  stderr (final w fs) = [no_candidate_message] /\
  map call_argv (calls (final w fs)) =
    [ list_cmd l; video_cmd l; audio_cmd l;
      decrypt_cmd l (video_enc l) (video_dec l) ] /\
  disk (final w fs) = disk s /\
  path_exists (disk s) (video_enc l) = false.
Proof.
  intros Hreach Ha Hc.
  assert (Hgone : path_exists (disk s) (video_enc l) = false).
  { destruct (path_exists (disk s) (video_enc l)) eqn:Hv; [|reflexivity].
    apply video_enc_is_candidate in Hv. rewrite Hc in Hv. contradiction. }
  destruct (to_audio_decrypt_history _ _ _ _ Hreach) as [Hcalls Herr].
  unfold exit_code, final, run_main.
  rewrite (main_after_video_decrypt _ _ _ _ Hreach).
  destruct s as [d out err cs]. cbn [disk calls stderr] in *.
  cbv beta iota zeta delta
    [decrypt_audio main_handlers bind ret raise try_except eprint sys_exit
     get_disk disk stdout stderr calls].
  rewrite Ha, Hc.
  cbn [fst snd exit_status disk calls stderr]. subst err.
  repeat split; assumption.
Qed.

(** In [Scenario.moving_decrypt] the video decrypt removes its input and
    there is no audio: the candidate list is empty. *)
Lemma no_audio_and_no_candidate_witness :
  (to_audio_decrypt Scenario.moving_decrypt (initial Scenario.empty_disk)
     = (Scenario.at_audio_decrypt, inr Scenario.locals) /\
   path_exists (disk Scenario.at_audio_decrypt) (audio_enc Scenario.locals)
     = false /\
   merged_candidates Scenario.locals (disk Scenario.at_audio_decrypt) = []) /\
  exit_code Scenario.moving_decrypt Scenario.empty_disk = 1%Z /\
  stderr (final Scenario.moving_decrypt Scenario.empty_disk)
    = [no_candidate_message].
Proof.
  assert (H1 : to_audio_decrypt Scenario.moving_decrypt
                 (initial Scenario.empty_disk)
               = (Scenario.at_audio_decrypt, inr Scenario.locals))
    by (vm_compute; reflexivity).
  assert (H2 : path_exists (disk Scenario.at_audio_decrypt)
                 (audio_enc Scenario.locals) = false)
    by (vm_compute; reflexivity).
  assert (H3 : merged_candidates Scenario.locals
                 (disk Scenario.at_audio_decrypt) = [])
    by (vm_compute; reflexivity).
  pose proof (no_audio_and_no_candidate_is_fatal _ _ _ _ H1 H2 H3)
    as (E & O & _).
  exact (conj (conj H1 (conj H2 H3)) (conj E O)).
Defined.

(** C5, as stated, fails in [Scenario.no_audio]: the run reaches the
    decrypt step, there is no encrypted audio, and the temporary directory
    holds nothing but the encrypted and the decrypted video; yet the
    encrypted video is taken as the candidate, decrypted again, and the
    run ends with exit code 0 and an empty error stream. *)
Lemma no_audio_and_no_other_file_is_not_fatal :
  to_audio_decrypt Scenario.no_audio (initial Scenario.empty_disk)
    = (Cases.no_audio_at_decrypt, inr Scenario.locals) /\
  path_exists (disk Cases.no_audio_at_decrypt) (audio_enc Scenario.locals)
    = false /\
  glob_suffix (disk Cases.no_audio_at_decrypt) (tmp Scenario.locals) ""
    = [video_enc Scenario.locals; video_dec Scenario.locals] /\
  merged_candidates Scenario.locals (disk Cases.no_audio_at_decrypt)
    = [video_enc Scenario.locals] /\
  nth_error
    (map call_argv (calls (final Scenario.no_audio Scenario.empty_disk))) 4
    = Some (decrypt_cmd Scenario.locals
              (video_enc Scenario.locals) (video_dec Scenario.locals)) /\
  exit_code Scenario.no_audio Scenario.empty_disk = 0%Z /\
  stderr (final Scenario.no_audio Scenario.empty_disk) = [].
Proof.
  repeat apply conj; vm_compute; reflexivity.
Qed.
(** C6, as amended.  The fallback candidates are the entries of the temporary
    directory itself whose name ends in [.mp4], [video.decrypted.mp4]
    excepted, so an encrypted video that is on disk is one of them.  In a
    run in which no subprocess removes [video.encrypted.mp4], the candidate
    list is not empty on the disk the video decrypt leaves, the
    no-candidate diagnostic is never printed, and a fallback decrypt, if
    there is one, writes the first candidate to [video.decrypted.mp4].
    In [Scenario.no_audio] that first candidate is the encrypted video,
    decrypted a second time over the output of the first. *)
Theorem encrypted_video_is_a_fallback_candidate
    (w : World) (fs : FS) (l : Locals) :
  resolve w = Some l ->
  forallb (leaves_in_place (video_enc l)) (calls (final w fs)) = true ->
  (forall d p,
     In p (merged_candidates l d) <->
     path_exists d p = true /\
     exists n, entry_name (tmp l) p = Some n /\
               ends_with ".mp4" n = true /\
               n <> "video.decrypted.mp4") /\
  (forall d, path_exists d (video_enc l) = true ->
             In (video_enc l) (merged_candidates l d)) /\
  (forall c, In c (calls (final w fs)) ->
             call_argv c = decrypt_cmd l (video_enc l) (video_dec l) ->
             In (video_enc l) (merged_candidates l (call_after c))) /\
  ~ In no_candidate_message (stderr (final w fs)) /\
  (forall c, nth_error (calls (final w fs)) 4 = Some c ->
             path_exists (call_before c) (audio_enc l) = false ->
             exists first rest,
               merged_candidates l (call_before c) = first :: rest /\
               call_argv c = decrypt_cmd l first (video_dec l)) /\
  map call_argv (calls (final Scenario.no_audio Scenario.empty_disk)) =
    [ list_cmd Scenario.locals; video_cmd Scenario.locals;
      audio_cmd Scenario.locals;
      decrypt_cmd Scenario.locals
        (video_enc Scenario.locals) (video_dec Scenario.locals);
      decrypt_cmd Scenario.locals
        (video_enc Scenario.locals) (video_dec Scenario.locals) ].
Proof.
  intros Hres Hkeep.
  split; [intros d p; apply merged_candidates_spec|].
  split; [intros d; apply video_enc_is_candidate|].
  cut ((forall c, In c (calls (final w fs)) ->
             call_argv c = decrypt_cmd l (video_enc l) (video_dec l) ->
             In (video_enc l) (merged_candidates l (call_after c))) /\
       ~ In no_candidate_message (stderr (final w fs)) /\
       (forall c, nth_error (calls (final w fs)) 4 = Some c ->
             path_exists (call_before c) (audio_enc l) = false ->
             exists first rest,
               merged_candidates l (call_before c) = first :: rest /\
               call_argv c = decrypt_cmd l first (video_dec l))).
  { intros (H1 & H2 & H3).
    split; [exact H1|]. split; [exact H2|]. split; [exact H3|].
    vm_compute; reflexivity. }
  unfold final in *.
  remember (run_main w fs) as r eqn:Hr.
  rewrite (run_main_resolved _ _ _ Hres) in Hr.
  explore Hr.
  all: subst r; cbn [fst calls stderr] in *.
  all: per_call Hkeep.
  all: repeat match goal with
       | K : leaves_in_place ?p (mkCall _ ?a _) = true,
         P : path_exists ?a ?p = true |- _ =>
           apply leaves_in_place_spec in K; [|exact P];
           cbn [call_after call_result call_before] in K
       end.
  all: try match goal with
       | Hc : merged_candidates ?l ?d = [],
         P : path_exists ?d (video_enc ?l) = true |- _ =>
           exfalso; apply video_enc_is_candidate in P;
           rewrite Hc in P; exact P
       end.
  all: split; [|split].
  all: try (intros H; split_in H; solve [not_that_message H | discriminate H]).
  all: try (intros c Hn; cbn [nth_error] in Hn; try discriminate Hn;
            injection Hn as <-; cbn [call_before call_argv];
            intros Ha;
            solve [ match goal with
                    | Hf : path_exists ?d ?p = true |- _ =>
                        rewrite Hf in Ha; discriminate Ha
                    end
                  | match goal with
                    | Hc : merged_candidates _ _ = ?p :: ?rest |- _ =>
                        exists p, rest; split; [exact Hc | reflexivity]
                    end ]).
  all: intros c Hin Hargv; split_in Hin; subst c;
    cbn [call_argv call_after call_result call_before] in *.
  all: try wrong_cmd Hargv.
  all: apply decrypt_cmd_inj in Hargv; destruct Hargv as [Hsrc _].
  all: try (exfalso; exact (audio_enc_is_not_video_enc _ Hsrc)).
  all: try subst.
  all: apply video_enc_is_candidate; assumption.
Qed.

(** In [Scenario.no_audio] nothing removes the encrypted video. *)
Lemma encrypted_video_candidate_witness :
  (resolve Scenario.no_audio = Some Scenario.locals /\
   forallb (leaves_in_place (video_enc Scenario.locals))
     (calls (final Scenario.no_audio Scenario.empty_disk)) = true) /\
  ~ In no_candidate_message
      (stderr (final Scenario.no_audio Scenario.empty_disk)).
Proof.
  assert (Hres : resolve Scenario.no_audio = Some Scenario.locals)
    by (vm_compute; reflexivity).
  assert (Hkeep : forallb (leaves_in_place (video_enc Scenario.locals))
                    (calls (final Scenario.no_audio Scenario.empty_disk))
                  = true)
    by (vm_compute; reflexivity).
  pose proof (encrypted_video_is_a_fallback_candidate _ _ _ Hres Hkeep)
    as (_ & _ & _ & H & _).
  exact (conj (conj Hres Hkeep) H).
Defined.

(** C6, as stated, fails in [Scenario.moving_decrypt]: the run reaches the
    decrypt step with the encrypted video on disk, the video decrypt exits
    0 and leaves no [video.encrypted.mp4] behind, no audio was downloaded,
    and the candidate list is empty: the no-candidate branch is taken. *)
Lemma no_candidate_branch_is_reachable :
  resolve Scenario.moving_decrypt = Some Scenario.locals /\
  to_audio_decrypt Scenario.moving_decrypt (initial Scenario.empty_disk)
    = (Scenario.at_audio_decrypt, inr Scenario.locals) /\
  path_exists (call_before Scenario.moving_video_decrypt)
    (video_enc Scenario.locals) = true /\
  call_argv Scenario.moving_video_decrypt
    = decrypt_cmd Scenario.locals
        (video_enc Scenario.locals) (video_dec Scenario.locals) /\
  merged_candidates Scenario.locals (disk Scenario.at_audio_decrypt) = [] /\
  In no_candidate_message
    (stderr (final Scenario.moving_decrypt Scenario.empty_disk)) /\
  exit_code Scenario.moving_decrypt Scenario.empty_disk = 1%Z.
Proof.
  repeat apply conj; try (vm_compute; reflexivity).
  vm_compute. left. reflexivity.
Qed.
(** C9, as amended.  The return code of the format listing has no effect
    on the run: put any other code in its place and the run prints the
    same lines on both streams, leaves the same disk, starts the same
    later subprocesses with the same results and exits with the same
    code; so a failed listing is not reported anywhere.  When the listing
    returns a non-zero code the run goes on to the video download, having
    printed up to there what it prints when the listing succeeds, and no
    line of the error stream reports the listing command.  A non-zero
    exit code of any later subprocess ends the run with exit code 1, that
    subprocess being the last one started. *)
Theorem listing_failure_is_ignored_silently
    (w : World) (fs : FS) (l : Locals) :
  resolve w = Some l ->
  (forall returncode,
     stdout (final (listing_returns returncode w) fs) = stdout (final w fs) /\
     stderr (final (listing_returns returncode w) fs) = stderr (final w fs) /\
     disk (final (listing_returns returncode w) fs) = disk (final w fs) /\
     exit_code (listing_returns returncode w) fs = exit_code w fs /\
     tl (calls (final (listing_returns returncode w) fs))
       = tl (calls (final w fs)) /\
     map call_argv (calls (final (listing_returns returncode w) fs))
       = map call_argv (calls (final w fs))) /\
  (forall c0,
     nth_error (calls (final w fs)) 0 = Some c0 ->
     call_argv c0 = list_cmd l /\
     (returned_nonzero c0 = true ->
      nth_error (map call_argv (calls (final w fs))) 1
        = Some (video_cmd l) /\
      firstn 4 (stdout (final w fs)) =
        [ Text ("[INFO] Using temp dir: " ++ tmp l);
          Text (nl ++ "[STEP] Listing available formats (yt-dlp -F) ...");
          Text (">>> " ++ join " " (list_cmd l));
          Text (nl ++ "[STEP] Downloading best video (encrypted) ...") ] /\
      (forall returncode,
         ~ In (CommandFailed returncode (list_cmd l))
              (stderr (final w fs))))) /\
  (forall i c,
     nth_error (calls (final w fs)) (S i) = Some c ->
     returned_nonzero c = true ->
     exit_code w fs = 1%Z /\ length (calls (final w fs)) = S (S i)).
Proof.
  intros Hres.
  split; [intros returncode;
          exact (listing_returncode_is_immaterial w fs l returncode Hres)|].
  split.
  - unfold final.
    remember (run_main w fs) as r eqn:Hr.
    rewrite (run_main_resolved _ _ _ Hres) in Hr.
    explore Hr.
    all: subst r; cbn [fst calls stdout stderr map nth_error firstn].
    all: intros c0 H0; injection H0 as <-.
    all: split; [reflexivity|].
    all: cbn [call_result returned_nonzero]; intros Hnz.
    all: try discriminate Hnz.
    all: try (subst; discriminate Hnz).
    all: split; [reflexivity | split; [reflexivity|]].
    all: intros returncode H; split_in H;
      solve [ discriminate H | injection H as _ H; wrong_cmd H ].
  - intros i c Hnth Hnz.
    destruct (failed_call_ends_run w fs l Hres (S i) c Hnth) as [_ H].
    destruct (H Hnz (Nat.neq_succ_0 i)) as (He & Hl & _).
    split; assumption.
Qed.

(** In [Scenario.listing_fails] the listing exits 1; were it to exit 0 the
    run would print the same. *)
Lemma listing_failure_witness :
  resolve Scenario.listing_fails = Some Scenario.locals /\
  returned_nonzero Scenario.failed_listing = true /\
  call_argv Scenario.failed_listing = list_cmd Scenario.locals /\
  nth_error
    (map call_argv (calls (final Scenario.listing_fails Scenario.empty_disk)))
    1 = Some (video_cmd Scenario.locals) /\
  stdout (final (listing_returns 0 Scenario.listing_fails)
            Scenario.empty_disk)
    = stdout (final Scenario.listing_fails Scenario.empty_disk) /\
  stderr (final (listing_returns 0 Scenario.listing_fails)
            Scenario.empty_disk)
    = stderr (final Scenario.listing_fails Scenario.empty_disk).
Proof.
  assert (Hres : resolve Scenario.listing_fails = Some Scenario.locals)
    by (vm_compute; reflexivity).
  assert (H0 : nth_error
                 (calls (final Scenario.listing_fails Scenario.empty_disk)) 0
               = Some Scenario.failed_listing)
    by (vm_compute; reflexivity).
  assert (Hnz : returned_nonzero Scenario.failed_listing = true)
    by (vm_compute; reflexivity).
  pose proof (listing_failure_is_ignored_silently
                _ Scenario.empty_disk _ Hres) as (HA & HB & _).
  destruct (HB _ H0) as (Hargv & Hgo).
  destruct (Hgo Hnz) as (Hnext & _).
  destruct (HA 0%Z) as (Hout & Herr & _).
  exact (conj Hres (conj Hnz (conj Hargv (conj Hnext (conj Hout Herr))))).
Defined.

(** C9, as stated, fails in [Scenario.listing_fails]: the listing exits 1,
    and yet the run prints, line for line on both streams, what the run of
    [Scenario.all_fine] prints, where the listing exits 0; the error stream
    stays empty.  The failure is not logged. *)
Lemma listing_failure_is_not_logged :
  returned_nonzero Scenario.failed_listing = true /\
  nth_error (calls (final Scenario.listing_fails Scenario.empty_disk)) 0
    = Some Scenario.failed_listing /\
  call_argv Scenario.failed_listing = list_cmd Scenario.locals /\
  returned_nonzero
    (nth 0 (calls (final Scenario.all_fine Scenario.empty_disk))
       Scenario.no_call) = false /\
  stdout (final Scenario.listing_fails Scenario.empty_disk)
    = stdout (final Scenario.all_fine Scenario.empty_disk) /\
  stderr (final Scenario.listing_fails Scenario.empty_disk) = [] /\
  stderr (final Scenario.all_fine Scenario.empty_disk) = [] /\
  exit_code Scenario.listing_fails Scenario.empty_disk = 0%Z.
Proof.
  repeat apply conj; vm_compute; reflexivity.
Qed.

(** C10. Nothing the script itself does removes anything: from the start
    to the first subprocess, from each subprocess to the next, and from the
    last one to the exit, on every exit path, the disk keeps every file and
    directory it had.  So in a run whose subprocesses remove nothing
    either, everything that was on disk at the start, or when some
    subprocess started or returned, is on disk at exit; in particular the
    temporary directory, once created, and every file (encrypted or
    decrypted track) that a subprocess left in it. *)
Theorem temporary_directory_is_never_cleaned_up (w : World) (fs : FS) :
  script_keeps fs (calls (final w fs)) (disk (final w fs)) = true /\
  (forallb removes_nothing (calls (final w fs)) = true ->
   keeps fs (disk (final w fs)) = true /\
   (forall c, In c (calls (final w fs)) ->
      keeps (call_before c) (disk (final w fs)) = true /\
      keeps (call_after c) (disk (final w fs)) = true) /\
   (forall l, resolve w = Some l ->
      is_dir (disk (final w fs)) (tmp l) = true) /\
   (forall c p, In c (calls (final w fs)) ->
      path_exists (call_after c) p = true ->
      path_exists (disk (final w fs)) p = true)).
Proof.
  destruct (script_only_adds w fs) as [Hscript Hfirst].
  split; [exact Hscript|]. intros Htools.
  destruct (script_keeps_throughout _ _ _ Hscript Htools) as [Hk Hall].
  rewrite Forall_forall in Hall.
  split; [exact Hk|]. split; [exact Hall|]. split.
  - intros l Hres. destruct (Hfirst l Hres) as (c & rest & Hc & Hb).
    apply (keeps_dir (call_before c)).
    + apply Hall. rewrite Hc. now left.
    + rewrite Hb. apply is_dir_make_dir.
  - intros c p Hin Hp.
    exact (keeps_file _ _ _ (proj2 (Hall c Hin)) Hp).
Qed.

(** In [Scenario.all_fine] no tool removes anything. *)
Lemma temporary_directory_witness :
  forallb removes_nothing
    (calls (final Scenario.all_fine Scenario.empty_disk)) = true /\
  is_dir (disk (final Scenario.all_fine Scenario.empty_disk))
    (tmp Scenario.locals) = true /\
  keeps Scenario.empty_disk
    (disk (final Scenario.all_fine Scenario.empty_disk)) = true.
Proof.
  assert (Htools : forallb removes_nothing
                     (calls (final Scenario.all_fine Scenario.empty_disk))
                   = true)
    by (vm_compute; reflexivity).
  assert (Hres : resolve Scenario.all_fine = Some Scenario.locals)
    by (vm_compute; reflexivity).
  pose proof (proj2 (temporary_directory_is_never_cleaned_up
                       Scenario.all_fine Scenario.empty_disk) Htools)
    as (Hk & _ & Hd & _).
  exact (conj Htools (conj (Hd _ Hres) Hk)).
Defined.

Lemma final_unresolved (w : World) (fs : FS) :
  resolve w = None ->
  exit_code w fs = 1%Z /\ calls (final w fs) = [] /\
  stdout (final w fs) = [] /\
  exists cmd, stderr (final w fs) = [tool_missing_message cmd].
Proof.
  intros Hres.
  destruct (setup_unresolved w (initial fs) Hres) as (cmd & _ & _ & E).
  unfold exit_code, final, run_main, main, bind. rewrite E. cbn.
  repeat apply conj; try reflexivity. now exists cmd.
Qed.

(** X1. Every run of [main] ends in one of two ways: exit code 0 with
    nothing on the error stream, or exit code 1 with exactly one line on
    the error stream. *)
Theorem exit_0_silent_or_exit_1_with_one_diagnostic (w : World) (fs : FS) :
  (exit_code w fs = 0%Z /\ stderr (final w fs) = []) \/
  (exit_code w fs = 1%Z /\ length (stderr (final w fs)) = 1).
Proof.
  destruct (resolve w) as [l|] eqn:Hres.
  - destruct (run_summary w fs l Hres)
      as (_ & _ & [(H0 & He & _) | (H1 & He & _)]); [left | right]; now split.
  - destruct (final_unresolved w fs Hres) as (H1 & _ & _ & cmd & He).
    right. split; [exact H1 | now rewrite He].
Qed.

(** X2. The success line is printed exactly in the runs that exit with
    code 0. *)
Theorem success_line_iff_exit_0 (w : World) (fs : FS) :
  In success_line (stdout (final w fs)) <-> exit_code w fs = 0%Z.
Proof.
  destruct (resolve w) as [l|] eqn:Hres.
  - destruct (run_summary w fs l Hres)
      as (_ & _ & [(H0 & _ & Hs & _) | (H1 & _ & Hs)]).
    + now split.
    + split; [intros H; contradiction | rewrite H1; discriminate].
  - destruct (final_unresolved w fs Hres) as (H1 & _ & Ho & _).
    rewrite Ho, H1. split; [intros [] | discriminate].
Qed.

(** X3. A run that exits with code 0 found all three tools and started at
    least five subprocesses: the listing, the two downloads, the video
    decrypt and one more decrypt, in that order; and every subprocess
    after the listing returned 0. *)
Theorem exit_0_means_every_step_returned_0 (w : World) (fs : FS) :
  exit_code w fs = 0%Z ->
  exists l,
    resolve w = Some l /\
    firstn 4 (map call_argv (calls (final w fs)))
      = [ list_cmd l; video_cmd l; audio_cmd l;
          decrypt_cmd l (video_enc l) (video_dec l) ] /\
    5 <= length (calls (final w fs)) /\
    forallb returned_zero (tl (calls (final w fs))) = true.
Proof.
  intros H0. destruct (resolve w) as [l|] eqn:Hres.
  - exists l. split; [reflexivity|].
    destruct (run_summary w fs l Hres)
      as (_ & _ & [(_ & _ & _ & H4 & H5 & Hz) | (H1 & _)]).
    + repeat split; assumption.
    + rewrite H1 in H0. discriminate H0.
  - destruct (final_unresolved w fs Hres) as (H1 & _).
    rewrite H1 in H0. discriminate H0.
Qed.

Lemma exit_0_witness :
  exit_code Scenario.all_fine Scenario.empty_disk = 0%Z /\
  exists l,
    resolve Scenario.all_fine = Some l /\
    firstn 4 (map call_argv
                (calls (final Scenario.all_fine Scenario.empty_disk)))
      = [ list_cmd l; video_cmd l; audio_cmd l;
          decrypt_cmd l (video_enc l) (video_dec l) ] /\
    5 <= length (calls (final Scenario.all_fine Scenario.empty_disk)) /\
    forallb returned_zero
      (tl (calls (final Scenario.all_fine Scenario.empty_disk))) = true.
Proof.
  assert (H0 : exit_code Scenario.all_fine Scenario.empty_disk = 0%Z)
    by (vm_compute; reflexivity).
  exact (conj H0 (exit_0_means_every_step_returned_0 _ _ H0)).
Defined.

(** X4. Every subprocess is announced: the lines of the output stream that
    start with [>>> ] are, in order, the echoed command lines of the
    subprocesses the run started, one line for each. *)
Theorem every_call_is_echoed_once (w : World) (fs : FS) :
  filter is_echo (stdout (final w fs))
    = map (fun c => echo (call_argv c)) (calls (final w fs)).
Proof.
  destruct (resolve w) as [l|] eqn:Hres.
  - exact (proj1 (run_summary w fs l Hres)).
  - destruct (final_unresolved w fs Hres) as (_ & Hc & Ho & _).
    now rewrite Hc, Ho.
Qed.

(** X5. The subprocesses of a run are started in pipeline order and none
    twice over: their command lines are an initial part of listing, video
    download, audio download, video decrypt, a fifth decrypt (of the
    audio, or of some source into the decrypted-video path), ffmpeg. *)
Theorem calls_follow_the_pipeline (w : World) (fs : FS) (l : Locals) :
  resolve w = Some l ->
  exists fifth rest,
    pipeline l fifth = (map call_argv (calls (final w fs)) ++ rest)%list /\
    (fifth = decrypt_cmd l (audio_enc l) (audio_dec l) \/
     exists src, fifth = decrypt_cmd l src (video_dec l)).
Proof.
  intros Hres. exact (proj1 (proj2 (run_summary w fs l Hres))).
Qed.

Lemma calls_follow_the_pipeline_witness :
  resolve Scenario.no_audio = Some Scenario.locals /\
  exists fifth rest,
    pipeline Scenario.locals fifth
      = (map call_argv (calls (final Scenario.no_audio Scenario.empty_disk))
         ++ rest)%list /\
    (fifth = decrypt_cmd Scenario.locals
               (audio_enc Scenario.locals) (audio_dec Scenario.locals) \/
     exists src,
       fifth = decrypt_cmd Scenario.locals src (video_dec Scenario.locals)).
Proof.
  assert (Hres : resolve Scenario.no_audio = Some Scenario.locals)
    by (vm_compute; reflexivity).
  exact (conj Hres (calls_follow_the_pipeline _ Scenario.empty_disk _ Hres)).
Defined.

(** X6. A non-zero return code of any subprocess after the listing ends
    the run at once: that subprocess is the last one started, the error
    stream holds the one line that reports its return code and command
    line, the output stream ends with the pointer to the logs, and the
    exit code is 1. *)
Theorem nonzero_exit_after_listing_is_fatal
    (w : World) (fs : FS) (i : nat) (c : Call) :
  nth_error (calls (final w fs)) (S i) = Some c ->
  returned_nonzero c = true ->
  exit_code w fs = 1%Z /\
  length (calls (final w fs)) = S (S i) /\
  (exists returncode after,
     call_result c = Completed returncode after /\
     stderr (final w fs) = [CommandFailed returncode (call_argv c)]) /\
  last (stdout (final w fs)) (Text "") = check_logs_line.
Proof.
  intros Hnth Hnz. destruct (resolve w) as [l|] eqn:Hres.
  - apply (proj2 (failed_call_ends_run w fs l Hres (S i) c Hnth) Hnz).
    discriminate.
  - destruct (final_unresolved w fs Hres) as (_ & Hc & _).
    rewrite Hc in Hnth. destruct i; discriminate Hnth.
Qed.

Lemma nonzero_exit_witness :
  (nth_error (calls (final Cases.audio_fails Scenario.empty_disk)) 2
     = Some Cases.failed_audio_download /\
   returned_nonzero Cases.failed_audio_download = true) /\
  exit_code Cases.audio_fails Scenario.empty_disk = 1%Z /\
  length (calls (final Cases.audio_fails Scenario.empty_disk)) = 3.
Proof.
  assert (Hnth : nth_error
                   (calls (final Cases.audio_fails Scenario.empty_disk)) 2
                 = Some Cases.failed_audio_download)
    by (vm_compute; reflexivity).
  assert (Hnz : returned_nonzero Cases.failed_audio_download = true)
    by (vm_compute; reflexivity).
  pose proof (nonzero_exit_after_listing_is_fatal _ _ _ _ Hnth Hnz)
    as (H1 & H2 & _).
  exact (conj (conj Hnth Hnz) (conj H1 H2)).
Defined.

(** X7. A subprocess that cannot be started ends the run at once, the
    listing included (its handler lets through everything but a non-zero
    return code): that call is the last one, the output stream ends with
    its echoed command line, the error stream holds the one line for an
    unexpected error, and the exit code is 1. *)
Theorem launch_failure_is_fatal
    (w : World) (fs : FS) (i : nat) (c : Call) :
  nth_error (calls (final w fs)) i = Some c ->
  launch_failed c = true ->
  exit_code w fs = 1%Z /\
  length (calls (final w fs)) = S i /\
  stderr (final w fs) = [Unexpected OSError] /\
  last (stdout (final w fs)) (Text "") = echo (call_argv c).
Proof.
  intros Hnth Hlf. destruct (resolve w) as [l|] eqn:Hres.
  - exact (proj1 (failed_call_ends_run w fs l Hres i c Hnth) Hlf).
  - destruct (final_unresolved w fs Hres) as (_ & Hc & _).
    rewrite Hc in Hnth. destruct i; discriminate Hnth.
Qed.

Lemma launch_failure_witness :
  (nth_error (calls (final Cases.listing_unstartable Scenario.empty_disk)) 0
     = Some Cases.unstarted_listing /\
   launch_failed Cases.unstarted_listing = true) /\
  exit_code Cases.listing_unstartable Scenario.empty_disk = 1%Z /\
  length (calls (final Cases.listing_unstartable Scenario.empty_disk)) = 1.
Proof.
  assert (Hnth : nth_error
                   (calls (final Cases.listing_unstartable
                             Scenario.empty_disk)) 0
                 = Some Cases.unstarted_listing)
    by (vm_compute; reflexivity).
  assert (Hlf : launch_failed Cases.unstarted_listing = true)
    by (vm_compute; reflexivity).
  pose proof (launch_failure_is_fatal _ _ _ _ Hnth Hlf) as (H1 & H2 & _).
  exact (conj (conj Hnth Hlf) (conj H1 H2)).
Defined.

(** X8. When both decrypted tracks are on disk at the merge step, [main]
    starts ffmpeg once, with [-y -i VIDEO -i AUDIO -c copy
    final_output.mp4], and goes by its return code alone: the script
    itself writes nothing (the disk at exit is the disk ffmpeg left),
    return code 0 gives the success line and exit code 0 whether or not
    [final_output.mp4] exists, and any other return code gives a
    command-failed line and exit code 1. *)
Theorem merge_goes_by_ffmpeg_return_code
    (w : World) (fs : FS) (s : State) (l : Locals)
    (returncode : Z) (after : FS) :
  to_merge w (initial fs) = (s, inr l) ->
  path_exists (disk s) (video_dec l) = true ->
  path_exists (disk s) (audio_dec l) = true ->
  spawn w (length (calls s)) (merge_cmd l) (disk s)
    = Completed returncode after ->
  calls (final w fs)
    = (calls s ++
       [mkCall (merge_cmd l) (disk s) (Completed returncode after)])%list /\
  merge_cmd l
    = [ ffmpeg l; "-y"; "-i"; video_dec l; "-i"; audio_dec l;
        "-c"; "copy"; "final_output.mp4" ] /\
  disk (final w fs) = after /\
  (returncode = 0%Z ->
   exit_code w fs = 0%Z /\ In success_line (stdout (final w fs)) /\
   stderr (final w fs) = stderr s) /\
  (returncode <> 0%Z ->
   exit_code w fs = 1%Z /\
   stderr (final w fs)
     = (stderr s ++ [CommandFailed returncode (merge_cmd l)])%list).
Proof.
  intros Hreach Hv Ha E.
  unfold exit_code, final, run_main.
  rewrite (main_after_to_merge _ _ _ _ Hreach).
  destruct s as [d out err cs]. cbn [disk calls stderr] in *.
  cbv beta iota zeta delta
    [merge_tracks report_success main_handlers run subprocess_run_check
     bind ret raise try_except print eprint sys_exit get_disk
     negb andb disk stdout stderr calls].
  rewrite Hv, Ha. cbv beta iota. rewrite E.
  destruct (Z.eqb_spec returncode 0) as [->|Hne];
    cbn [fst snd exit_status disk calls stderr stdout].
  - repeat apply conj; try reflexivity.
    + intros _. repeat apply conj; try reflexivity.
      apply in_or_app. left. apply in_or_app. left.
      apply in_or_app. right. now left.
    + intros H. now contradiction H.
  - repeat apply conj; try reflexivity.
    + intros H. contradiction.
    + intros _. split; reflexivity.
Qed.

(** In [Cases.idle_ffmpeg] ffmpeg exits 0 and writes nothing: the run
    exits 0 and there is no final output. *)
Lemma merge_goes_by_ffmpeg_witness :
  (to_merge Cases.idle_ffmpeg (initial Scenario.empty_disk)
     = (Cases.before_idle_ffmpeg, inr Scenario.locals) /\
   path_exists (disk Cases.before_idle_ffmpeg) (video_dec Scenario.locals)
     = true /\
   path_exists (disk Cases.before_idle_ffmpeg) (audio_dec Scenario.locals)
     = true /\
   spawn Cases.idle_ffmpeg (length (calls Cases.before_idle_ffmpeg))
     (merge_cmd Scenario.locals) (disk Cases.before_idle_ffmpeg)
     = Completed 0 (disk Cases.before_idle_ffmpeg)) /\
  exit_code Cases.idle_ffmpeg Scenario.empty_disk = 0%Z /\
  In success_line (stdout (final Cases.idle_ffmpeg Scenario.empty_disk)) /\
  path_exists (disk (final Cases.idle_ffmpeg Scenario.empty_disk)) OUTPUT
    = false.
Proof.
  assert (H1 : to_merge Cases.idle_ffmpeg (initial Scenario.empty_disk)
               = (Cases.before_idle_ffmpeg, inr Scenario.locals))
    by (vm_compute; reflexivity).
  assert (H2 : path_exists (disk Cases.before_idle_ffmpeg)
                 (video_dec Scenario.locals) = true)
    by (vm_compute; reflexivity).
  assert (H3 : path_exists (disk Cases.before_idle_ffmpeg)
                 (audio_dec Scenario.locals) = true)
    by (vm_compute; reflexivity).
  assert (H4 : spawn Cases.idle_ffmpeg
                 (length (calls Cases.before_idle_ffmpeg))
                 (merge_cmd Scenario.locals) (disk Cases.before_idle_ffmpeg)
               = Completed 0 (disk Cases.before_idle_ffmpeg))
    by (vm_compute; reflexivity).
  assert (H5 : path_exists
                 (disk (final Cases.idle_ffmpeg Scenario.empty_disk)) OUTPUT
               = false)
    by (vm_compute; reflexivity).
  pose proof (merge_goes_by_ffmpeg_return_code _ _ _ _ _ _ H1 H2 H3 H4)
    as (_ & _ & _ & Hok & _).
  destruct (Hok eq_refl) as (E & S & _).
  exact (conj (conj H1 (conj H2 (conj H3 H4))) (conj E (conj S H5))).
Defined.

(** X9. When a run reaches the merge step and the decrypted video is not
    on disk (mp4decrypt exited 0 without writing it, say), [main] prints
    the decrypted-video-not-found line on the error stream and exits with
    code 1, whether or not a decrypted audio exists: ffmpeg is not
    started, nothing is copied, the disk is left as it was. *)
Theorem missing_decrypted_video_is_fatal
    (w : World) (fs : FS) (s : State) (l : Locals) :
  to_merge w (initial fs) = (s, inr l) ->
  path_exists (disk s) (video_dec l) = false ->
  exit_code w fs = 1%Z /\
  stderr (final w fs) = (stderr s ++ [no_decrypted_video_message])%list /\
  calls (final w fs) = calls s /\
  disk (final w fs) = disk s.
Proof.
  intros Hreach Hv.
  unfold exit_code, final, run_main.
  rewrite (main_after_to_merge _ _ _ _ Hreach).
  destruct s as [d out err cs]. cbn [disk calls stderr] in *.
  cbv beta iota zeta delta
    [merge_tracks report_success main_handlers bind ret raise try_except
     print eprint sys_exit get_disk negb andb
     disk stdout stderr calls].
  rewrite Hv. cbv beta iota.
  repeat apply conj; reflexivity.
Qed.

Lemma missing_decrypted_video_witness :
  (to_merge Cases.idle_decrypt (initial Scenario.empty_disk)
     = (Cases.after_idle_decrypt, inr Scenario.locals) /\
   path_exists (disk Cases.after_idle_decrypt) (video_dec Scenario.locals)
     = false) /\
  exit_code Cases.idle_decrypt Scenario.empty_disk = 1%Z /\
  calls (final Cases.idle_decrypt Scenario.empty_disk)
    = calls Cases.after_idle_decrypt.
Proof.
  assert (H1 : to_merge Cases.idle_decrypt (initial Scenario.empty_disk)
               = (Cases.after_idle_decrypt, inr Scenario.locals))
    by (vm_compute; reflexivity).
  assert (H2 : path_exists (disk Cases.after_idle_decrypt)
                 (video_dec Scenario.locals) = false)
    by (vm_compute; reflexivity).
  pose proof (missing_decrypted_video_is_fatal _ _ _ _ H1 H2)
    as (E & _ & C & _).
  exact (conj (conj H1 H2) (conj E C)).
Defined.

(** X10. When both downloads have returned 0 and the encrypted video is
    nevertheless not on disk, [main] prints the encrypted-video-not-found
    line, with the path it looked at, on the error stream and exits with
    code 1 before the decrypt step: the only subprocesses of the run are
    the listing and the two downloads. *)
Theorem missing_encrypted_video_is_fatal
    (w : World) (fs : FS) (s : State) (l : Locals) :
  to_validation w (initial fs) = (s, inr l) ->
  path_exists (disk s) (video_enc l) = false ->
  exit_code w fs = 1%Z /\
  stderr (final w fs) = [video_missing_message l] /\
  map call_argv (calls (final w fs))
    = [list_cmd l; video_cmd l; audio_cmd l] /\
  disk (final w fs) = disk s.
Proof.
  intros Hreach Hv.
  destruct (to_validation_history _ _ _ _ Hreach)
    as (c0 & c1 & c2 & _ & Hargv & _ & _ & _ & _ & Herr).
  unfold exit_code, final, run_main.
  rewrite (main_after_downloads _ _ _ _ Hreach).
  destruct s as [d out err cs]. cbn [disk calls stderr] in *.
  cbv beta iota zeta delta
    [validate_files main_handlers bind ret raise try_except
     print eprint sys_exit get_disk negb
     disk stdout stderr calls].
  rewrite Hv. cbv beta iota. subst err.
  repeat apply conj; try reflexivity. exact Hargv.
Qed.

Lemma missing_encrypted_video_witness :
  (to_validation Cases.no_video (initial Scenario.empty_disk)
     = (Cases.downloaded_no_video, inr Scenario.locals) /\
   path_exists (disk Cases.downloaded_no_video) (video_enc Scenario.locals)
     = false) /\
  exit_code Cases.no_video Scenario.empty_disk = 1%Z /\
  stderr (final Cases.no_video Scenario.empty_disk)
    = [video_missing_message Scenario.locals].
Proof.
  assert (H1 : to_validation Cases.no_video (initial Scenario.empty_disk)
               = (Cases.downloaded_no_video, inr Scenario.locals))
    by (vm_compute; reflexivity).
  assert (H2 : path_exists (disk Cases.downloaded_no_video)
                 (video_enc Scenario.locals) = false)
    by (vm_compute; reflexivity).
  pose proof (missing_encrypted_video_is_fatal _ _ _ _ H1 H2)
    as (E & O & _).
  exact (conj (conj H1 H2) (conj E O)).
Defined.

Lemma key_args_loop (keys acc : list string) :
  fold_left (fun a k => (a ++ ["--key"; k])%list) keys acc
    = (acc ++ flat_map (fun k => ["--key"; k]) keys)%list.
Proof.
  revert acc. induction keys as [|k keys IH]; intros acc; cbn.
  - now rewrite app_nil_r.
  - rewrite IH, <- app_assoc. reflexivity.
Qed.

(** X12. The key-argument loop of lines 104-106 turns any list of keys
    into [--key K] pairs, one pair per key, in the order of the list: no
    key is dropped, repeated or reordered, twice as many arguments as
    keys, and no arguments for no keys.  The arguments [main] passes are
    those of the configured [KEYS]. *)
Theorem key_args_are_one_pair_per_key (keys : list string) :
  key_args_for keys = flat_map (fun k => ["--key"; k]) keys /\
  length (key_args_for keys) = 2 * length keys /\
  (forall i k, nth_error keys i = Some k ->
     nth_error (key_args_for keys) (2 * i) = Some "--key" /\
     nth_error (key_args_for keys) (2 * i + 1) = Some k) /\
  key_args = key_args_for KEYS.
Proof.
  assert (E : key_args_for keys = flat_map (fun k => ["--key"; k]) keys)
    by (unfold key_args_for; now rewrite key_args_loop).
  rewrite E. clear E. repeat apply conj; try reflexivity.
  - induction keys as [|k keys IH]; cbn [flat_map app length]; [reflexivity|].
    rewrite IH. lia.
  - induction keys as [|k keys IH]; intros i x Hi.
    + destruct i; discriminate Hi.
    + destruct i as [|i].
      * injection Hi as ->. split; reflexivity.
      * cbn [nth_error] in Hi. destruct (IH i x Hi) as [H1 H2].
        replace (2 * S i) with (S (S (2 * i))) by lia.
        replace (S (S (2 * i)) + 1) with (S (S (2 * i + 1))) by lia.
        split; [exact H1 | exact H2].
Qed.

Lemma key_args_witness :
  nth_error ["k1"; "k2"] 1 = Some "k2" /\
  nth_error (key_args_for ["k1"; "k2"]) (2 * 1) = Some "--key" /\
  nth_error (key_args_for ["k1"; "k2"]) (2 * 1 + 1) = Some "k2".
Proof.
  assert (H : nth_error ["k1"; "k2"] 1 = Some "k2") by reflexivity.
  exact (conj H
           (proj1 (proj2 (proj2 (key_args_are_one_pair_per_key
                                   ["k1"; "k2"]))) 1 "k2" H)).
Defined.

(** X13. Only the first missing tool is reported, in the order in which
    [main] looks the tools up (yt-dlp, mp4decrypt, ffmpeg), whatever else
    is missing: its line is all there is on the error stream, nothing is
    printed on the output stream, no subprocess is started and the exit
    code is 1. *)
Theorem first_missing_tool_is_reported (w : World) (fs : FS) (cmd : string) :
  first_missing w = Some cmd ->
  which w cmd = None /\
  stderr (final w fs) = [tool_missing_message cmd] /\
  stdout (final w fs) = [] /\
  calls (final w fs) = [] /\
  exit_code w fs = 1%Z.
Proof.
  unfold first_missing, exit_code, final, run_main, main, setup,
    which_or_exit, bind.
  destruct (which w "yt-dlp") as [yt|] eqn:Hy.
  - destruct (which w "mp4decrypt") as [mp|] eqn:Hm.
    + destruct (which w "ffmpeg") as [ff|] eqn:Hf; [discriminate|].
      intros [= <-]. repeat apply conj; try reflexivity. exact Hf.
    + intros [= <-]. repeat apply conj; try reflexivity. exact Hm.
  - intros [= <-]. repeat apply conj; try reflexivity. exact Hy.
Qed.

(** On the machine of [Cases.only_mp4decrypt] both yt-dlp and ffmpeg are
    missing; yt-dlp is the one reported. *)
Lemma first_missing_tool_witness :
  first_missing Cases.only_mp4decrypt = Some "yt-dlp" /\
  which Cases.only_mp4decrypt "ffmpeg" = None /\
  stderr (final Cases.only_mp4decrypt Scenario.empty_disk)
    = [tool_missing_message "yt-dlp"].
Proof.
  assert (H : first_missing Cases.only_mp4decrypt = Some "yt-dlp")
    by (vm_compute; reflexivity).
  assert (Hf : which Cases.only_mp4decrypt "ffmpeg" = None)
    by (vm_compute; reflexivity).
  pose proof (first_missing_tool_is_reported _ Scenario.empty_disk _ H)
    as (_ & E & _).
  exact (conj H (conj Hf E)).
Defined.

(** X14. The four track files are four different files, each an entry of
    the temporary directory itself, under its fixed name, and none of
    them is [final_output.mp4], whatever the temporary directory is: no
    step of the pipeline is asked to write over its own input, and the
    final output never lands on a track. *)
Theorem track_paths_are_distinct (l : Locals) :
  NoDup [video_enc l; audio_enc l; video_dec l; audio_dec l; OUTPUT] /\
  entry_name (tmp l) (video_enc l) = Some "video.encrypted.mp4" /\
  entry_name (tmp l) (audio_enc l) = Some "audio.encrypted.m4a" /\
  entry_name (tmp l) (video_dec l) = Some "video.decrypted.mp4" /\
  entry_name (tmp l) (audio_dec l) = Some "audio.decrypted.m4a" /\
  entry_name (tmp l) OUTPUT = None.
Proof.
  assert (Hout : forall n, path_div (tmp l) n <> OUTPUT)
    by (intros n; apply output_is_not_in_tmp).
  assert (Hne : forall a b, a <> b -> path_div (tmp l) a <> path_div (tmp l) b)
    by (intros a b Hab E; apply Hab; exact (path_div_inj _ _ _ E)).
  split; [|repeat apply conj].
  - unfold video_enc, audio_enc, video_dec, audio_dec.
    repeat constructor; cbn [In]; intros H;
      repeat match type of H with
             | _ \/ _ => destruct H as [H|H]
             | False => exact H
             | path_div _ _ = OUTPUT => exact (Hout _ H)
             | OUTPUT = path_div _ _ => symmetry in H; exact (Hout _ H)
             | path_div _ _ = path_div _ _ =>
                 revert H; apply Hne; discriminate
             end.
  - now apply entry_name_div.
  - now apply entry_name_div.
  - now apply entry_name_div.
  - now apply entry_name_div.
  - destruct (entry_name (tmp l) OUTPUT) as [n|] eqn:E; [|reflexivity].
    destruct (entry_name_spec _ _ _ E) as (H & _).
    symmetry in H. now apply Hout in H.
Qed.


End Down.
